(** * Retrieval core of the RAG search application ([src/index.mjs])

    A shallow embedding of the in-memory vector store, the cosine
    similarity ranker and the indexing and query pipelines, followed by the
    properties of the specification that concern them.

    JavaScript numbers are IEEE-754 binary64 values: they are modelled by
    Rocq's primitive [float], whose operations are specified by
    [FloatAxioms] against the executable reference [SpecFloat].  Promises
    are modelled by their completion (fulfilled with a value, or rejected),
    objects with mutable fields by explicit state passing. *)

From Stdlib Require Import List ZArith Bool String Ascii Lia Floats.
From Stdlib Require Import Sorted Permutation.
Import ListNotations.

Set Implicit Arguments.

(** ** The JavaScript runtime the program relies on *)

Module JS.

Definition number := float.

(** Exceptions: a [TypeError] raised by the runtime, or the rejection of a
    promise by an external collaborator. *)
Inductive exn : Type :=
| TypeError (message : string)
| Rejected (reason : string).

(** The outcome of evaluating (and awaiting) an expression. *)
Inductive completion (A : Type) : Type :=
| Normal (value : A)
| Throw (e : exn).

Arguments Normal {A} value.
Arguments Throw {A} e.

Definition bind {A B} (c : completion A) (k : A -> completion B) : completion B :=
  match c with
  | Normal v => k v
  | Throw e => Throw e
  end.

(** [await Promise.all(promises)]: fulfilled with the values in the order of
    the input array, rejected when one promise is.  When several are
    rejected the program sees the rejection that comes first in time; here it
    is the first in array order, and the properties below only speak of the
    rejection of some promise of the array. *)
Fixpoint Promise_all {A} (promises : list (completion A)) : completion (list A) :=
  match promises with
  | [] => Normal []
  | p :: rest =>
      bind p (fun v => bind (Promise_all rest) (fun vs => Normal (v :: vs)))
  end.

(** [ToString] of a property that may be absent. *)
Definition ToString (v : option string) : string :=
  match v with
  | Some s => s
  | None => "undefined"
  end.

(** [ToNumber] of an array element that may be out of range: [b[i]] is
    [undefined] there, and [undefined] converts to [NaN]. *)
Definition ToNumber (v : option number) : number :=
  match v with
  | Some x => x
  | None => nan
  end.

(** [arr.map(callback)]; the callback receives the element and its index. *)
Fixpoint map_from {A B} (callback : A -> nat -> B) (index : nat) (arr : list A) : list B :=
  match arr with
  | [] => []
  | x :: rest => callback x index :: map_from callback (S index) rest
  end.

Definition map {A B} (callback : A -> nat -> B) (arr : list A) : list B :=
  map_from callback 0 arr.

(** [arr.reduce(callback, initialValue)]; the callback receives the
    accumulator, the element and its index. *)
Fixpoint reduce_from {A B} (callback : B -> A -> nat -> B) (index : nat)
    (accumulator : B) (arr : list A) : B :=
  match arr with
  | [] => accumulator
  | x :: rest => reduce_from callback (S index) (callback accumulator x index) rest
  end.

Definition reduce {A B} (callback : B -> A -> nat -> B) (initialValue : B)
    (arr : list A) : B :=
  reduce_from callback 0 initialValue arr.

(** [arr.slice(start, end)] for integral arguments: a negative bound counts
    from the end of the array, and both are clamped to [0 .. length]. *)
Definition relative_index (len i : Z) : Z :=
  if (i <? 0)%Z then Z.max (len + i) 0 else Z.min i len.

Definition slice {A} (arr : list A) (start end_ : Z) : list A :=
  let len := Z.of_nat (List.length arr) in
  let k := relative_index len start in
  let final := relative_index len end_ in
  firstn (Z.to_nat (Z.max (final - k) 0)) (skipn (Z.to_nat k) arr).

(** [arr.sort(comparefn)].  [SortCompare] turns a [NaN] returned by the
    comparator into [+0]; [x] is placed before [y] when the comparator is
    positive on [(y, x)].  The sort is stable.  For a consistent comparator
    the result is fully determined by these two requirements; it is computed
    here by inserting the elements one by one, in array order, each one
    after the elements it does not have to precede.  A comparator that
    returns [NaN] on some pairs only is not consistent, and the language then
    leaves the order to the engine: what is computed here is a rearrangement
    of the array, not necessarily the engine's.  The properties below that
    depend on the order are stated for comparisons without [NaN]. *)
Definition SortCompare {A} (comparefn : A -> A -> number) (x y : A) : number :=
  let v := comparefn x y in
  if is_nan v then 0%float else v.

Fixpoint insert {A} (comparefn : A -> A -> number) (x : A) (sorted : list A) : list A :=
  match sorted with
  | [] => [x]
  | y :: rest =>
      if (0 <? SortCompare comparefn y x)%float
      then x :: y :: rest
      else y :: insert comparefn x rest
  end.

Definition sort {A} (comparefn : A -> A -> number) (arr : list A) : list A :=
  fold_left (fun sorted x => insert comparefn x sorted) arr [].

End JS.

Import JS.

Notation "x <- c ;; k" := (JS.bind c (fun x => k))
  (at level 61, c at next level, right associativity).

(** ** Document model *)

Section Documents.

(** Identifiers are copied, never inspected: any type will do. *)
Variable Id : Type.

(** A record of the corpus file; [title] and [content] may be absent. *)
Record RawItem : Type := {
  item_id : Id;
  item_title : option string;
  item_content : option string
}.

Record Metadata : Type := {
  id : Id;
  title : option string
}.

Record Document : Type := {
  pageContent : string;
  metadata : Metadata
}.

Definition LF : string := String "010"%char EmptyString.

(** [formatDocuments], lines 17-25. *)
Definition formatDocuments (rawData : list RawItem) : list Document :=
  List.map (fun item =>
    {| pageContent := "Title: " ++ ToString (item_title item) ++ LF
                      ++ "Content: " ++ ToString (item_content item);
       metadata := {| id := item_id item; title := item_title item |} |})
    rawData.

End Documents.

Arguments pageContent {Id} d.
Arguments metadata {Id} d.
Arguments formatDocuments {Id} rawData.

(** ** Embeddings and the similarity ranker *)

Definition Vector := list number.

(** The feature-extraction pipeline, called with mean pooling and
    normalisation; the model stands for [Array.from(output.data)] of its
    answer, or for its rejection. *)
Definition Extractor := string -> completion Vector.

(** [getEmbeddings], lines 44-47.  Calling an [extractor] that was never
    set is a [TypeError]. *)
Definition getEmbeddings (extractor : option Extractor) (text : string) : completion Vector :=
  match extractor with
  | Some run => run text
  | None => Throw (TypeError "extractor is not a function")
  end.

(** [cosineSimilarity], lines 78-83. *)
Definition cosineSimilarity (a b : Vector) : number :=
  let dotProduct :=
    reduce (fun sum val i => sum + val * ToNumber (nth_error b i))%float 0%float a in
  let magnitudeA := sqrt (reduce (fun sum val _ => sum + val * val)%float 0%float a) in
  let magnitudeB := sqrt (reduce (fun sum val _ => sum + val * val)%float 0%float b) in
  (dotProduct / (magnitudeA * magnitudeB))%float.

(** The two subterms of [cosineSimilarity], named for the statements. *)
Definition dotProduct (a b : Vector) : number :=
  reduce (fun sum val i => sum + val * ToNumber (nth_error b i))%float 0%float a.

Definition magnitude (a : Vector) : number :=
  sqrt (reduce (fun sum val _ => sum + val * val)%float 0%float a).

(** ** The vector store *)

Section Store.

Variable Id : Type.

(** [class CustomVectorStore], lines 49-76: two arrays and the extractor
    attached after construction. *)
Record CustomVectorStore : Type := {
  vectors : list Vector;
  documents : list (Document Id);
  extractor : option Extractor
}.

(** The constructor, lines 50-53. *)
Definition new_CustomVectorStore : CustomVectorStore :=
  {| vectors := []; documents := []; extractor := None |}.

(** [addVectors], lines 55-58: both fields are overwritten. *)
Definition addVectors (this : CustomVectorStore) (vectors' : list Vector)
    (documents' : list (Document Id)) : completion unit * CustomVectorStore :=
  let this := {| vectors := vectors'; documents := documents this;
                 extractor := extractor this |} in
  let this := {| vectors := vectors this; documents := documents';
                 extractor := extractor this |} in
  (Normal tt, this).

(** [setExtractor], lines 73-75. *)
Definition setExtractor (this : CustomVectorStore) (extractor' : option Extractor)
    : CustomVectorStore :=
  {| vectors := vectors this; documents := documents this; extractor := extractor' |}.

(** An entry of the local [similarities] array; [this.documents[index]] is
    [undefined] past the end of [documents]. *)
Record Scored : Type := {
  similarity : number;
  document : option (Document Id)
}.

(** [similaritySearch], lines 60-71; an omitted [k] defaults to 3.  The
    local array [similarities] is sorted in place and then sliced; the method
    assigns to no field, so the store it leaves is the one it found. *)
Definition similaritySearch (this : CustomVectorStore) (query : string) (k : option Z)
    : completion (list (option (Document Id))) * CustomVectorStore :=
  let k := match k with Some k => k | None => 3%Z end in
  (queryEmbedding <- getEmbeddings (extractor this) query ;;
   let similarities :=
     JS.map (fun vector index =>
       let similarity := cosineSimilarity queryEmbedding vector in
       {| similarity := similarity; document := nth_error (documents this) index |})
       (vectors this) in
   let similarities :=
     sort (fun a b => similarity b - similarity a)%float similarities in
   Normal (List.map document (slice similarities 0 k)),
   this).

(** [createVectorStore], lines 85-96. *)
Definition createVectorStore (docs : list (Document Id)) (extractor : Extractor)
    : completion CustomVectorStore :=
  embeddings <- Promise_all
    (List.map (fun doc => getEmbeddings (Some extractor) (pageContent doc)) docs) ;;
  let vectorStore := new_CustomVectorStore in
  let vectorStore := setExtractor vectorStore (Some extractor) in
  let '(added, vectorStore) := addVectors vectorStore embeddings docs in
  _ <- added ;;
  Normal vectorStore.

(** [searchDocuments], lines 98-100. *)
Definition searchDocuments (vectorStore : CustomVectorStore) (query : string)
    : completion (list (option (Document Id))) * CustomVectorStore :=
  similaritySearch vectorStore query (Some 3%Z).

End Store.

Arguments new_CustomVectorStore {Id}.

(** ** Notions used by the statements and proofs *)

(** An order-preserving image of the binary64 numbers other than [NaN] in
    the integers: the value scaled by [2 ^ -emin], the infinities beyond
    every finite value. *)
Definition rank_infinity : Z := 2 ^ 2200.

Definition rank (x : spec_float) : Z :=
  match x with
  | S754_zero _ => 0
  | S754_nan => 0
  | S754_infinity s => cond_Zopp s rank_infinity
  | S754_finite s m e => cond_Zopp s (Z.pos m * 2 ^ (e - emin))
  end.

Definition key (x : number) : Z := rank (Prim2SF x).

Definition SFis_nan (x : spec_float) : bool :=
  match x with
  | S754_nan => true
  | _ => false
  end.

(** [x] is a non-zero number or an infinity of sign [s]. *)
Definition signed_nonzero (s : bool) (x : spec_float) : Prop :=
  match x with
  | S754_finite s' _ _ | S754_infinity s' => s' = s
  | _ => False
  end.

(** Insertion and sorting along a boolean "must come after" test; [JS.sort]
    is the instance whose test is [0 < SortCompare comparefn y x]. *)
Fixpoint insert_by {A} (after : A -> A -> bool) (x : A) (sorted : list A) : list A :=
  match sorted with
  | [] => [x]
  | y :: rest =>
      if after y x then x :: y :: rest else y :: insert_by after x rest
  end.

Definition sort_by {A} (after : A -> A -> bool) (arr : list A) : list A :=
  fold_left (fun sorted x => insert_by after x sorted) arr [].

(** Position [i] may stand before position [j] in a ranking by decreasing
    key [k]: its key is not smaller, and on equal keys it is the earlier
    position. *)
Definition precedes (k : nat -> Z) (i j : nat) : Prop :=
  (k j <= k i)%Z /\ (k i = k j -> i < j).

Section Views.

Variable Id : Type.

(** The similarity computed for position [i] of the store, and the entry
    of [similarities] built there. *)
Definition similarity_at (this : CustomVectorStore Id) (queryEmbedding : Vector)
    (i : nat) : number :=
  cosineSimilarity queryEmbedding (nth i (vectors this) []).

Definition scored_at (this : CustomVectorStore Id) (queryEmbedding : Vector)
    (i : nat) : Scored Id :=
  {| similarity := similarity_at this queryEmbedding i;
     document := nth_error (documents this) i |}.

(** What [similaritySearch] resolves to once the query is embedded: lines
    63-70 on the vector [queryEmbedding]. *)
Definition rank_documents (this : CustomVectorStore Id) (queryEmbedding : Vector) (k : Z)
    : list (option (Document Id)) :=
  List.map (@document Id)
    (slice
       (sort (fun a b => similarity b - similarity a)%float
          (JS.map (fun vector index =>
             {| similarity := cosineSimilarity queryEmbedding vector;
                document := nth_error (documents this) index |})
             (vectors this)))
       0 k).

(** What [formatDocuments] makes of one record. *)
Definition formatted (item : RawItem Id) (doc : Document Id) : Prop :=
  pageContent doc =
    ("Title: " ++ ToString (item_title item) ++ LF
     ++ "Content: " ++ ToString (item_content item))%string /\
  id (metadata doc) = item_id item /\
  title (metadata doc) = item_title item.

End Views.

(** ** Sample data *)

Module Sample.

Definition doc (n : nat) (t c : string) : Document nat :=
  {| pageContent := "Title: " ++ t ++ LF ++ "Content: " ++ c;
     metadata := {| id := n; title := Some t |} |}.

Definition cats : Document nat := doc 1 "A" "cats are mammals".
Definition rockets : Document nat := doc 2 "B" "rockets reach orbit".

(** An embedder that sends every text to the first axis. *)
Definition along_x : Extractor := fun _ => Normal [1; 0]%float.

(** Texts about cats near [[1, 0]], the others near [[0, 1]]. *)
Definition by_topic : Extractor := fun text =>
  if String.eqb text (pageContent cats) then Normal [1; 0]%float
  else if String.eqb text "tell me about kittens" then Normal [0.875; 0.125]%float
  else Normal [0; 1]%float.

Definition two_documents : CustomVectorStore nat :=
  {| vectors := [[1; 0]; [0; 1]]%float;
     documents := [cats; rockets];
     extractor := Some along_x |}.

(** A store two of whose vectors are equally close to the first axis. *)
Definition tied : CustomVectorStore nat :=
  {| vectors := [[0; 1]; [2; 0]; [1; 0]]%float;
     documents := [rockets; cats; doc 3 "C" "kittens purr"];
     extractor := Some along_x |}.

(** A store one of whose vectors is the zero vector. *)
Definition with_zero_vector : CustomVectorStore nat :=
  {| vectors := [[0; 0]; [1; 0]]%float;
     documents := [cats; rockets];
     extractor := Some along_x |}.

End Sample.

(** ** The answer assembler, the session and the program *)

Open Scope string_scope.

(** [arr.join(separator)] on an array of strings. *)
Fixpoint join (separator : string) (arr : list string) : string :=
  match arr with
  | [] => ""
  | [x] => x
  | x :: rest => x ++ separator ++ join separator rest
  end.

(** [arr.map(callback)] with a callback that may throw: the first exception,
    in array order, ends the traversal. *)
Fixpoint map_throwing {A B} (callback : A -> completion B) (arr : list A)
    : completion (list B) :=
  match arr with
  | [] => Normal []
  | x :: rest =>
      y <- callback x ;;
      ys <- map_throwing callback rest ;;
      Normal (y :: ys)
  end.

(** [query.toLowerCase() === word] for a word of ASCII letters.  Strings
    are held as UTF-8 bytes; the capitals [A-Z] are the only characters whose
    lower case is a lone ASCII letter other than [k], so folding them
    decides the test. *)
Definition lower_ascii (c : ascii) : ascii :=
  let n := nat_of_ascii c in
  if (65 <=? n)%nat && (n <=? 90)%nat then ascii_of_nat (n + 32) else c.

Fixpoint lower_string (s : string) : string :=
  match s with
  | EmptyString => EmptyString
  | String c rest => String (lower_ascii c) (lower_string rest)
  end.

Definition lowercase_is (query word : string) : bool :=
  String.eqb (lower_string query) word.

(** What the program writes: the prompt of [rl.question], a call of
    [console.log] with its arguments, a call of [console.error] with a
    message and the exception caught. *)
Inductive output : Type :=
| Asked (prompt : string)
| Logged (args : list string)
| Failed (message : string) (error : exn).

(** A line that arrives at the terminal: while a question is pending, and
    then it answers the question; or while none is, and then nothing hears
    it. *)
Inductive arrival : Type :=
| Answering (line : string)
| Unheard (line : string).

(** The lines that answered a question. *)
Definition answers (arrivals : list arrival) : list string :=
  flat_map (fun a => match a with Answering line => [line] | Unheard _ => [] end)
    arrivals.

(** The state of the promise returned by an [async] function that reads
    the terminal: settled, or waiting for a line that does not come. *)
Inductive promise (A : Type) : Type :=
| Settled (c : completion A)
| Pending.

Arguments Settled {A} c.
Arguments Pending {A}.

(** [client.chat.completions.create] for one user message: the [content]
    of the [message] of each of the [choices] of the response ([None] when
    it is [null]), or the rejection of the request. *)
Definition Client := string -> completion (list (option string)).

(** [getAnswer], lines 114-121: the content of the first choice;
    [response.choices[0]] is [undefined] when there is none. *)
Definition getAnswer (client : Client) (prompt : string) : completion (option string) :=
  response <- client prompt ;;
  match response with
  | content :: _ => Normal content
  | [] => Throw (TypeError "Cannot read properties of undefined (reading 'message')")
  end.

(** How [console.log] shows the answer: a string as it is, [null] by name. *)
Definition shown (answer : option string) : string :=
  match answer with
  | Some text => text
  | None => "null"
  end.

(** The messages of the program, as the calls that write them. *)
Definition question : output :=
  Asked "Введіть ваш запит (або 'exit' для виходу): ".

Definition answer_line (answer : option string) : output :=
  Logged [LF ++ "🔹 Відповідь:"; shown answer].

Definition sources_heading : output := Logged [LF ++ "📄 Джерела:"].

Definition source_line (title : option string) : output :=
  Logged ["- " ++ ToString title].

Definition query_failed (error : exn) : output :=
  Failed "Помилка під час обробки запиту:" error.

Definition separator : output := Logged [LF ++ "-------------------" ++ LF].

Definition load_failed (error : exn) : output :=
  Failed "Помилка під час завантаження файлу:" error.

Definition no_data : output := Logged ["Дані не знайдені або порожні."].

Definition loading_model : output := Logged ["Завантаження моделі для embeddings..."].

Definition creating_store : output := Logged ["Створення векторного сховища..."].

Definition ready : output := Logged ["Система RAG готова до використання."].

Section Session.

Variable Id : Type.

(** [formatPrompt], lines 102-112.  Reading [pageContent] of an entry that
    is [undefined] is a [TypeError]. *)
Definition formatPrompt (query : string) (documents : list (option (Document Id)))
    : completion string :=
  texts <- map_throwing (fun doc =>
      match doc with
      | Some doc => Normal (pageContent doc)
      | None =>
          Throw (TypeError "Cannot read properties of undefined (reading 'pageContent')")
      end) documents ;;
  let context := join (LF ++ LF) texts in
  Normal ("На основі наступного контексту, відповісти на запит. Якщо відповідь не знайдена в контексті, скажи про це." ++ LF
          ++ LF
          ++ "Контекст:" ++ LF
          ++ context ++ LF
          ++ LF
          ++ "Запит: " ++ query ++ LF
          ++ LF
          ++ "Відповідь:").

(** [seen.has(title)] on a [Set] held as the list of its members, newest
    first; a title is a string or [undefined]. *)
Definition same_title (t u : option string) : bool :=
  match t, u with
  | Some t, Some u => String.eqb t u
  | None, None => true
  | _, _ => false
  end.

Definition has (seen : list (option string)) (t : option string) : bool :=
  existsb (same_title t) seen.

(** The [forEach] of lines 144-149, from a given state of [seen]: the lines
    it logs, and how it ends. *)
Fixpoint listSources (relevantDocs : list (option (Document Id)))
    (seen : list (option string)) : list output * completion unit :=
  match relevantDocs with
  | [] => ([], Normal tt)
  | None :: _ =>
      ([], Throw (TypeError "Cannot read properties of undefined (reading 'metadata')"))
  | Some doc :: rest =>
      if negb (has seen (title (metadata doc))) then
        let '(logged, ended) := listSources rest (title (metadata doc) :: seen) in
        (source_line (title (metadata doc)) :: logged, ended)
      else listSources rest seen
  end.

(** The [try] statement of lines 136-152: what one query makes the program
    write, and the store after it. *)
Definition answerQuery (vectorStore : CustomVectorStore Id) (client : Client)
    (query : string) : list output * CustomVectorStore Id :=
  let '(found, vectorStore) := searchDocuments vectorStore query in
  let answered :=
    relevantDocs <- found ;;
    prompt <- formatPrompt query relevantDocs ;;
    answer <- getAnswer client prompt ;;
    Normal (relevantDocs, answer) in
  match answered with
  | Throw error => ([query_failed error], vectorStore)
  | Normal (relevantDocs, answer) =>
      let '(logged, ended) := listSources relevantDocs [] in
      let written := answer_line answer :: sources_heading :: logged in
      match ended with
      | Normal _ => (written, vectorStore)
      | Throw error => ((written ++ [query_failed error])%list, vectorStore)
      end
  end.

(** [startChat], lines 123-156, on what arrives at the terminal.  The
    loop asks, and the next line that arrives while the question is pending
    answers it; it stops on [exit] in any capitalisation, and otherwise
    answers and writes the separator.  A line that arrives while no question
    is pending (before the question is asked, or during a turn) is given to
    no listener and is lost.  While nothing more has arrived the question
    stays unanswered. *)
Fixpoint startChat (vectorStore : CustomVectorStore Id) (client : Client)
    (arrivals : list arrival) : list output * promise unit :=
  match arrivals with
  | [] => ([question], Pending)
  | Unheard _ :: rest => startChat vectorStore client rest
  | Answering query :: rest =>
      if lowercase_is query "exit" then ([question], Settled (Normal tt))
      else
        let '(written, vectorStore) := answerQuery vectorStore client query in
        let '(later, ended) := startChat vectorStore client rest in
        (question :: (written ++ separator :: later)%list, ended)
  end.

(** What the program finds around it: the file system, [JSON.parse] on a
    corpus file (an array of records), what [new OpenAI] gives with the key
    of the environment (it throws when the key is missing), the
    feature-extraction pipeline once loaded, and what arrives at the
    terminal. *)
Record World : Type := {
  readFile : string -> completion string;
  JSON_parse : string -> completion (list (RawItem Id));
  openai : completion Client;
  pipeline : completion Extractor;
  stdin : list arrival
}.

(** [loadData], lines 7-15: any failure is logged and gives the empty
    corpus. *)
Definition loadData (world : World) (filePath : option string)
    : list output * completion (list (RawItem Id)) :=
  let filePath := match filePath with Some path => path | None => "./data.json" end in
  let parsed :=
    fileContent <- readFile world filePath ;;
    JSON_parse world fileContent in
  match parsed with
  | Normal rawData => ([], Normal rawData)
  | Throw error => ([load_failed error], Normal [])
  end.

(** [initializeOpenRouter], lines 27-36: the constructor call, which may
    throw; and [initializeEmbeddings], lines 38-42. *)
Definition initializeOpenRouter (world : World) : completion Client := openai world.

Definition initializeEmbeddings (world : World) : list output * completion Extractor :=
  ([loading_model], pipeline world).

(** [runRAG], lines 157-171; the log of line 86 is written when
    [createVectorStore] is entered. *)
Definition runRAG (world : World) : list output * promise unit :=
  let '(written, loaded) := loadData world None in
  match loaded with
  | Throw error => (written, Settled (Throw error))
  | Normal rawData =>
      if (List.length rawData =? 0)%nat then
        ((written ++ [no_data])%list, Settled (Normal tt))
      else
        let docs := formatDocuments rawData in
        match initializeOpenRouter world with
        | Throw error => (written, Settled (Throw error))
        | Normal client =>
            let '(written', loaded') := initializeEmbeddings world in
            let written := (written ++ written')%list in
            match loaded' with
            | Throw error => (written, Settled (Throw error))
            | Normal extractor =>
                let written := (written ++ [creating_store])%list in
                match createVectorStore docs extractor with
                | Throw error => (written, Settled (Throw error))
                | Normal vectorStore =>
                    let written := (written ++ [ready])%list in
                    let '(written', ended) :=
                      startChat vectorStore client (stdin world) in
                    ((written ++ written')%list, ended)
                end
            end
        end
  end.

End Session.

Close Scope string_scope.

(** ** Reading strings *)

(** [text] occurs in [s]; [s] ends with [text]. *)
Definition occurs_in (text s : string) : Prop :=
  exists before after, s = (before ++ text ++ after)%string.

Definition ends_with (text s : string) : Prop :=
  exists before, s = (before ++ text)%string.

(** ** The store and its arrays as objects *)

Module Objects.

Section Heap.

Variable Id : Type.

(** The arrays of the program: of vectors, of documents, of scored entries
    ([similarities] and its slice) and of retrieved documents.  Vectors,
    documents and scored entries are never written to after they are made
    and are held by value. *)
Inductive array : Type :=
| OfVectors (elements : list Vector)
| OfDocuments (elements : list (Document Id))
| OfScored (elements : list (Scored Id))
| OfRetrieved (elements : list (option (Document Id))).

(** The heap: the arrays made so far; an array is known by its address,
    and a new array takes the next address. *)
Definition heap : Type := list array.

Definition allocate (h : heap) (a : array) : nat * heap :=
  (List.length h, h ++ [a]).

(** Writing an array over the one at [address]. *)
Fixpoint assign (h : heap) (address : nat) (a : array) : heap :=
  match h, address with
  | [], _ => []
  | _ :: rest, 0 => a :: rest
  | b :: rest, S address => b :: assign rest address a
  end.

(** A [CustomVectorStore] object: its fields hold the arrays they were
    given, not copies. *)
Record CustomVectorStore : Type := {
  vectors : nat;
  documents : nat;
  extractor : option Extractor
}.

(** [addVectors], lines 55-58: the fields take the addresses passed in. *)
Definition addVectors (this : CustomVectorStore) (vectors' documents' : nat)
    : completion unit * CustomVectorStore :=
  (Normal tt,
   {| vectors := vectors'; documents := documents'; extractor := extractor this |}).

(** [similarities.sort(comparefn)]: the array at [address] is sorted where
    it is. *)
Definition sort_in_place (comparefn : Scored Id -> Scored Id -> number)
    (address : nat) (h : heap) : completion unit * heap :=
  match nth_error h address with
  | Some (OfScored elements) =>
      (Normal tt, assign h address (OfScored (sort comparefn elements)))
  | _ => (Throw (TypeError "similarities.sort is not a function"), h)
  end.

(** [similaritySearch], lines 60-71, on the heap: [map] makes the array
    [similarities], [sort] sorts it where it is, [slice] and the last [map]
    make two more arrays; the address of the last one is returned.  The
    callback of [map] reads [this.documents] at every index; nothing is
    written in between, so it is read once here.  A field that does not hold
    an array of its kind is outside what the program builds: [this.vectors]
    is then answered by a [TypeError] and [this.documents] read as empty. *)
Definition similaritySearch (this : CustomVectorStore) (query : string) (k : option Z)
    (h : heap) : completion nat * heap :=
  let k := match k with Some k => k | None => 3%Z end in
  match getEmbeddings (extractor this) query with
  | Throw error => (Throw error, h)
  | Normal queryEmbedding =>
      match nth_error h (vectors this) with
      | Some (OfVectors stored) =>
          let documents_now :=
            match nth_error h (documents this) with
            | Some (OfDocuments held) => held
            | _ => []
            end in
          let '(similarities, h) :=
            allocate h (OfScored (JS.map (fun vector index =>
              let similarity := cosineSimilarity queryEmbedding vector in
              {| similarity := similarity;
                 document := nth_error documents_now index |}) stored)) in
          let '(sorted, h) :=
            sort_in_place (fun a b => similarity b - similarity a)%float similarities h in
          match sorted, nth_error h similarities with
          | Normal _, Some (OfScored elements) =>
              let '(sliced, h) := allocate h (OfScored (slice elements 0 k)) in
              match nth_error h sliced with
              | Some (OfScored top) =>
                  let '(result, h) := allocate h (OfRetrieved (List.map (@document Id) top)) in
                  (Normal result, h)
              | _ => (Throw (TypeError "slice(...).map is not a function"), h)
              end
          | Throw error, _ => (Throw error, h)
          | _, _ => (Throw (TypeError "similarities.slice is not a function"), h)
          end
      | _ => (Throw (TypeError "this.vectors.map is not a function"), h)
      end
  end.

(** What a caller finds at the address a search returned. *)
Definition retrieved (found : completion nat) (h : heap)
    : completion (list (option (Document Id))) :=
  address <- found ;;
  match nth_error h address with
  | Some (OfRetrieved entries) => Normal entries
  | _ => Throw (TypeError "not iterable")
  end.

End Heap.
End Objects.

Section ObjectViews.

Variable Id : Type.

(** The store of the first model that a store object stands for. *)
Definition contents (this : Objects.CustomVectorStore) (h : Objects.heap Id)
    : CustomVectorStore Id :=
  {| vectors :=
       match nth_error h (Objects.vectors this) with
       | Some (Objects.OfVectors _ stored) => stored
       | _ => []
       end;
     documents :=
       match nth_error h (Objects.documents this) with
       | Some (Objects.OfDocuments held) => held
       | _ => []
       end;
     extractor := Objects.extractor this |}.

(** The fields of the store object hold arrays of the right kinds. *)
Definition well_formed (this : Objects.CustomVectorStore) (h : Objects.heap Id) : Prop :=
  (exists stored, nth_error h (Objects.vectors this) = Some (Objects.OfVectors Id stored)) /\
  (exists held, nth_error h (Objects.documents this) = Some (Objects.OfDocuments held)).

End ObjectViews.

(** ** Sample surroundings *)

Module Scene.

(** An embedder that is out of reach. *)
Definition offline : Extractor := fun _ => Throw (Rejected "fetch failed").

(** A completion service with one fixed answer, and one that is down. *)
Definition oracle : Client := fun _ => Normal [Some "Cats are mammals."%string].

Definition down : Client := fun _ => Throw (Rejected "503").

Definition corpus : list (RawItem nat) :=
  [{| item_id := 1; item_title := Some "A"%string;
      item_content := Some "cats are mammals"%string |};
   {| item_id := 2; item_title := Some "B"%string;
      item_content := Some "rockets reach orbit"%string |}].

(** The index over the two sample documents. *)
Definition index : CustomVectorStore nat :=
  {| vectors := [[1; 0]; [0; 1]]%float;
     documents := [Sample.cats; Sample.rockets];
     extractor := Some Sample.by_topic |}.

(** A machine on which the corpus file cannot be read. *)
Definition no_file : World nat :=
  {| readFile := fun _ => Throw (Rejected "ENOENT");
     JSON_parse := fun _ => Normal corpus;
     openai := Normal oracle;
     pipeline := Normal Sample.by_topic;
     stdin := [Answering "tell me about kittens"; Answering "exit"] |}.

(** A machine with the corpus and no key for the completion service. *)
Definition no_key : World nat :=
  {| readFile := fun _ => Normal "[...]"%string;
     JSON_parse := fun _ => Normal corpus;
     openai := Throw (Rejected "The OPENAI_API_KEY environment variable is missing");
     pipeline := Normal Sample.by_topic;
     stdin := [Answering "tell me about kittens"; Answering "exit"] |}.

(** A machine with the corpus, whose embedding model cannot be reached. *)
Definition no_model : World nat :=
  {| readFile := fun _ => Normal "[...]"%string;
     JSON_parse := fun _ => Normal corpus;
     openai := Normal oracle;
     pipeline := Normal offline;
     stdin := [Answering "tell me about kittens"; Answering "exit"] |}.

(** A machine where everything answers; the second line is typed while
    the first question is being answered. *)
Definition working : World nat :=
  {| readFile := fun _ => Normal "[...]"%string;
     JSON_parse := fun _ => Normal corpus;
     openai := Normal oracle;
     pipeline := Normal Sample.by_topic;
     stdin := [Answering "tell me about kittens"; Unheard "exit";
               Answering "Exit"; Answering "never read"] |}.

(** A heap that holds the arrays of the two-document store, and the store
    object over them. *)
Definition arrays : Objects.heap nat :=
  [Objects.OfVectors nat [[1; 0]; [0; 1]]%float;
   Objects.OfDocuments [Sample.cats; Sample.rockets]].

Definition store_object : Objects.CustomVectorStore :=
  {| Objects.vectors := 0; Objects.documents := 1;
     Objects.extractor := Some Sample.along_x |}.

End Scene.

(** ** The ranking of the stored positions *)

Section Positions.

Variable Id : Type.

(** The test [sort] makes between the entries built at two positions of the
    store, and the order in which it leaves the positions. *)
Definition must_follow (this : CustomVectorStore Id) (queryEmbedding : Vector)
    (y x : nat) : bool :=
  (0 <? SortCompare (fun a b : Scored Id => similarity b - similarity a)
          (scored_at this queryEmbedding y) (scored_at this queryEmbedding x))%float.

Definition ranking (this : CustomVectorStore Id) (queryEmbedding : Vector) : list nat :=
  sort_by (must_follow this queryEmbedding) (seq 0 (List.length (vectors this))).

End Positions.

Unset Implicit Arguments.

(** * Binary64 facts *)

Module FloatFacts.

Local Open Scope Z_scope.

Lemma digits2_size p : digits2_pos p = Pos.size p.
Proof. induction p; simpl; congruence. Qed.

Lemma digits_bounds p :
  (2 ^ (Z.pos (digits2_pos p) - 1) <= Z.pos p < 2 ^ Z.pos (digits2_pos p)).
Proof.
  rewrite digits2_size. split.
  - pose proof (Pos.size_le p) as H.
    assert (Z.pos (2 ^ Pos.size p) <= Z.pos p~0) as H' by exact H.
    rewrite Pos2Z.inj_pow in H'.
    replace (Z.pos (Pos.size p)) with (Z.succ (Z.pos (Pos.size p) - 1)) in H' by lia.
    rewrite Z.pow_succ_r in H' by lia. lia.
  - pose proof (Pos.size_gt p) as H.
    assert (Z.pos p < Z.pos (2 ^ Pos.size p)) as H' by exact H.
    now rewrite Pos2Z.inj_pow in H'.
Qed.

(** A valid finite binary64 number is either subnormal (exponent [emin]) or
    has a full 53-bit mantissa. *)
Lemma bounded_inv m e :
  bounded prec emax m e = true ->
  (emin <= e <= emax - prec) /\
  (Z.pos (digits2_pos m) <= prec) /\
  (e = emin \/ Z.pos (digits2_pos m) = prec).
Proof.
  unfold bounded, canonical_mantissa, fexp. intros H.
  apply andb_prop in H as [H1 H2].
  apply Z.eqb_eq in H1. apply Z.leb_le in H2.
  unfold emin, SpecFloat.emin, emax, prec in *. lia.
Qed.

Lemma finite_rank_bounds m e :
  bounded prec emax m e = true ->
  (0 < Z.pos m * 2 ^ (e - emin) < rank_infinity).
Proof.
  unfold rank_infinity.
  intros H. apply bounded_inv in H as (He & Hd & _).
  pose proof (digits_bounds m) as [_ Hm].
  assert (0 < 2 ^ (e - emin)) by (apply Z.pow_pos_nonneg; lia).
  split; [lia|].
  apply Z.lt_le_trans with (2 ^ prec * 2 ^ (e - emin)).
  - apply Z.mul_lt_mono_pos_r; [lia|].
    apply Z.lt_le_trans with (1 := Hm). apply Z.pow_le_mono_r; lia.
  - unfold SpecFloat.emin, emax, prec in *.
    rewrite <- Z.pow_add_r by lia.
    apply Z.pow_le_mono_r; lia.
Qed.

(** On canonical mantissas the exponent decides the order. *)
Lemma canonical_exp_lt m1 e1 m2 e2 :
  bounded prec emax m1 e1 = true -> bounded prec emax m2 e2 = true ->
  (e1 < e2) ->
  (Z.pos m1 * 2 ^ (e1 - emin) < Z.pos m2 * 2 ^ (e2 - emin)).
Proof.
  intros H1 H2 Hlt.
  apply bounded_inv in H1 as (He1 & Hd1 & _).
  apply bounded_inv in H2 as (He2 & Hd2 & Hc2).
  assert (Z.pos (digits2_pos m2) = prec) as Hfull by lia.
  pose proof (digits_bounds m1) as [_ Hm1].
  pose proof (digits_bounds m2) as [Hm2 _]. rewrite Hfull in Hm2.
  assert (0 < 2 ^ (e1 - emin)) by (apply Z.pow_pos_nonneg; lia).
  apply Z.lt_le_trans with (2 ^ prec * 2 ^ (e1 - emin)).
  - apply Z.mul_lt_mono_pos_r; [lia|].
    apply Z.lt_le_trans with (1 := Hm1). apply Z.pow_le_mono_r; lia.
  - apply Z.le_trans with (2 ^ (prec - 1) * 2 ^ (e2 - emin)).
    + unfold SpecFloat.emin, emax, prec in *.
      rewrite <- !Z.pow_add_r by lia.
      apply Z.pow_le_mono_r; lia.
    + apply Z.mul_le_mono_nonneg_r; [|lia].
      apply Z.pow_nonneg; lia.
Qed.

Lemma SFcompare_rank x y :
  valid_binary x = true -> valid_binary y = true ->
  SFis_nan x = false -> SFis_nan y = false ->
  SFcompare x y = Some (rank x ?= rank y).
Proof.
  intros Vx Vy Nx Ny.
  destruct x as [sx|sx| |sx mx ex], y as [sy|sy| |sy my ey];
    try discriminate; cbn [valid_binary SpecFloat.valid_binary] in Vx, Vy;
    cbn [SFcompare rank].
  - reflexivity.
  - destruct sy; reflexivity.
  - pose proof (finite_rank_bounds _ _ Vy).
    destruct sy; cbn [cond_Zopp]; f_equal; symmetry;
      [apply Z.compare_gt_iff | apply Z.compare_lt_iff]; lia.
  - destruct sx; reflexivity.
  - destruct sx, sy; reflexivity.
  - pose proof (finite_rank_bounds _ _ Vy).
    destruct sx, sy; cbn [cond_Zopp]; f_equal; symmetry;
      first [apply Z.compare_gt_iff; lia | apply Z.compare_lt_iff; lia].
  - pose proof (finite_rank_bounds _ _ Vx).
    destruct sx; cbn [cond_Zopp]; f_equal; symmetry;
      [apply Z.compare_lt_iff | apply Z.compare_gt_iff]; lia.
  - pose proof (finite_rank_bounds _ _ Vx).
    destruct sx, sy; cbn [cond_Zopp]; f_equal; symmetry;
      first [apply Z.compare_gt_iff; lia | apply Z.compare_lt_iff; lia].
  - pose proof (finite_rank_bounds _ _ Vx) as Bx.
    pose proof (finite_rank_bounds _ _ Vy) as By.
    assert (Hpc : Pos.compare_cont Eq mx my = (mx ?= my)%positive) by reflexivity.
    destruct sx, sy; cbn [cond_Zopp]; f_equal; symmetry.
    + destruct (Z.compare_spec ex ey) as [E|L|G].
      * subst ey. rewrite Hpc.
        assert (0 < 2 ^ (ex - emin)) as Hp by lia.
        generalize dependent (2 ^ (ex - emin)); intros P Bx By Hp.
        destruct (Pos.compare_spec mx my) as [E'|L'|G']; cbn [CompOpp].
        -- subst. apply Z.compare_eq_iff. reflexivity.
        -- apply Z.compare_gt_iff. apply Pos2Z.pos_lt_pos in L'. nia.
        -- apply Z.compare_lt_iff. apply Pos2Z.pos_lt_pos in G'. nia.
      * apply Z.compare_gt_iff. pose proof (canonical_exp_lt _ _ _ _ Vx Vy L). lia.
      * apply Z.compare_lt_iff. pose proof (canonical_exp_lt _ _ _ _ Vy Vx G). lia.
    + apply Z.compare_lt_iff; lia.
    + apply Z.compare_gt_iff; lia.
    + destruct (Z.compare_spec ex ey) as [E|L|G].
      * subst ey. rewrite Hpc.
        assert (0 < 2 ^ (ex - emin)) as Hp by lia.
        generalize dependent (2 ^ (ex - emin)); intros P Bx By Hp.
        destruct (Pos.compare_spec mx my) as [E'|L'|G']; cbn [CompOpp].
        -- subst. apply Z.compare_eq_iff. reflexivity.
        -- apply Z.compare_lt_iff. apply Pos2Z.pos_lt_pos in L'. nia.
        -- apply Z.compare_gt_iff. apply Pos2Z.pos_lt_pos in G'. nia.
      * apply Z.compare_lt_iff. exact (canonical_exp_lt _ _ _ _ Vx Vy L).
      * apply Z.compare_gt_iff. pose proof (canonical_exp_lt _ _ _ _ Vy Vx G). lia.
Qed.

Lemma shr_1_lower k r :
  0 < k -> 2 ^ k <= shr_m r -> 2 ^ (k - 1) <= shr_m (shr_1 r).
Proof.
  intros Hk H. destruct r as [m r s]. cbn [shr_m] in H.
  replace k with (Z.succ (k - 1)) in H by lia.
  rewrite Z.pow_succ_r in H by lia.
  assert (0 < 2 ^ (k - 1)) by (apply Z.pow_pos_nonneg; lia).
  destruct m as [|[p|p|]|p]; cbn [shr_1 shr_m]; lia.
Qed.

Lemma iter_shr_lower p : forall k r,
  Z.pos p <= k -> 2 ^ k <= shr_m r ->
  2 ^ (k - Z.pos p) <= shr_m (iter_pos shr_1 p r).
Proof.
  induction p as [p IH|p IH|]; intros k r Hk H; cbn [iter_pos].
  - replace (k - Z.pos p~1) with (k - 1 - Z.pos p - Z.pos p) by lia.
    apply IH; [lia|]. apply IH; [lia|]. apply shr_1_lower; [lia|assumption].
  - replace (k - Z.pos p~0) with (k - Z.pos p - Z.pos p) by lia.
    apply IH; [lia|]. apply IH; [lia|assumption].
  - apply shr_1_lower; [lia|assumption].
Qed.

Lemma shr_m_of_loc m l : shr_m (shr_record_of_loc m l) = m.
Proof. destruct l as [|[]]; reflexivity. Qed.

Lemma shr_fexp_pos m e l :
  0 < m -> emin <= e ->
  0 < shr_m (fst (shr_fexp prec emax m e l)) /\
  emin <= snd (shr_fexp prec emax m e l).
Proof.
  intros Hm He. destruct m as [|p|p]; try lia.
  unfold shr_fexp, shr. cbn [Zdigits2].
  destruct (fexp prec emax (Z.pos (digits2_pos p) + e) - e) as [|q|q] eqn:E;
    cbn [fst snd]; rewrite ?shr_m_of_loc; try (split; lia).
  unfold fexp in E.
  pose proof (digits_bounds p) as [Hlo _].
  split.
  - apply Z.lt_le_trans with (2 ^ (Z.pos (digits2_pos p) - 1 - Z.pos q)).
    + apply Z.pow_pos_nonneg; unfold prec in *; lia.
    + apply iter_shr_lower; [unfold prec in *; lia|].
      now rewrite shr_m_of_loc.
  - lia.
Qed.

Lemma round_nearest_even_ge m l : m <= round_nearest_even m l.
Proof.
  destruct l as [|[]]; cbn [round_nearest_even]; try lia.
  destruct (Z.even m); lia.
Qed.

Lemma binary_round_aux_nonzero s m e l :
  0 < m -> emin <= e ->
  signed_nonzero s (binary_round_aux prec emax s m e l).
Proof.
  intros Hm He. unfold binary_round_aux.
  pose proof (shr_fexp_pos m e l Hm He) as [H1 H2].
  destruct (shr_fexp prec emax m e l) as [mrs' e'] eqn:E1. cbn [fst snd] in H1, H2.
  pose proof (round_nearest_even_ge (shr_m mrs') (loc_of_shr_record mrs')) as Hr.
  remember (round_nearest_even (shr_m mrs') (loc_of_shr_record mrs')) as m2.
  assert (0 < m2) as Hm2 by lia.
  pose proof (shr_fexp_pos m2 e' loc_Exact Hm2 H2) as [H3 _].
  destruct (shr_fexp prec emax m2 e' loc_Exact) as [mrs'' e''].
  cbn [fst] in H3.
  destruct (shr_m mrs'') as [|q|q]; try lia.
  destruct (e'' <=? emax - prec); reflexivity.
Qed.

Lemma binary_round_nonzero s m e :
  emin <= e -> signed_nonzero s (binary_round prec emax s m e).
Proof.
  intros He. unfold binary_round, shl_align.
  destruct (fexp prec emax (Z.pos (digits2_pos m) + e) - e) eqn:E;
    apply binary_round_aux_nonzero; try lia.
  unfold fexp. lia.
Qed.

Lemma binary_normalize_sign M e :
  emin <= e ->
  match M with
  | 0 => binary_normalize prec emax M e false = S754_zero false
  | Z.pos _ => signed_nonzero false (binary_normalize prec emax M e false)
  | Z.neg _ => signed_nonzero true (binary_normalize prec emax M e false)
  end.
Proof.
  intros He. destruct M; cbn [binary_normalize];
    [reflexivity | apply binary_round_nonzero | apply binary_round_nonzero];
    assumption.
Qed.

Lemma iter_xO m d : Z.pos (Pos.iter xO m d) = Z.pos m * 2 ^ Z.pos d.
Proof.
  induction d as [|d IH] using Pos.peano_ind.
  - cbn [Pos.iter]. lia.
  - rewrite Pos.iter_succ, Pos2Z.inj_succ, Z.pow_succ_r by lia.
    rewrite Pos2Z.inj_xO, IH. lia.
Qed.

Lemma shl_align_value m e ez :
  ez <= e -> Z.pos (fst (shl_align m e ez)) = Z.pos m * 2 ^ (e - ez).
Proof.
  intros H. unfold shl_align.
  destruct (ez - e) as [|d|d] eqn:E; cbn [fst].
  - replace (e - ez) with 0 by lia. lia.
  - lia.
  - rewrite iter_xO. f_equal. f_equal. lia.
Qed.

Lemma ltb_zero_signed x :
  SFltb (S754_zero false) x =
  match x with
  | S754_finite s _ _ | S754_infinity s => negb s
  | _ => false
  end.
Proof. destruct x as [s|[]| |[] m e]; reflexivity. Qed.

(** The sign of an IEEE difference is the sign of the exact difference:
    with gradual underflow, [y - x] never rounds to zero. *)
Lemma SFsub_sign x y :
  valid_binary x = true -> valid_binary y = true ->
  SFis_nan x = false -> SFis_nan y = false ->
  SFltb (S754_zero false) (SF64sub y x) = (rank x <? rank y).
Proof.
  intros Vx Vy Nx Ny. rewrite ltb_zero_signed.
  destruct x as [sx|sx| |sx mx ex], y as [sy|sy| |sy my ey];
    try discriminate; cbn [valid_binary SpecFloat.valid_binary] in Vx, Vy;
    unfold SF64sub; cbn [SFsub rank]; symmetry.
  - destruct sy, sx; reflexivity.
  - destruct sy; reflexivity.
  - pose proof (finite_rank_bounds _ _ Vy).
    destruct sy; cbn [cond_Zopp negb]; [apply Z.ltb_ge | apply Z.ltb_lt]; lia.
  - destruct sx; reflexivity.
  - destruct sy, sx; reflexivity.
  - pose proof (finite_rank_bounds _ _ Vy).
    destruct sx, sy; cbn [cond_Zopp negb];
      first [apply Z.ltb_ge; lia | apply Z.ltb_lt; lia].
  - pose proof (finite_rank_bounds _ _ Vx).
    destruct sx; cbn [cond_Zopp negb]; [apply Z.ltb_lt | apply Z.ltb_ge]; lia.
  - pose proof (finite_rank_bounds _ _ Vx).
    destruct sx, sy; cbn [cond_Zopp negb];
      first [apply Z.ltb_ge; lia | apply Z.ltb_lt; lia].
  - pose proof (bounded_inv _ _ Vx) as (Hex & _).
    pose proof (bounded_inv _ _ Vy) as (Hey & _).
    set (ez := Z.min ey ex).
    assert (emin <= ez) as Hez by (unfold ez; lia).
    assert (Hx : Z.pos mx * 2 ^ (ex - emin) =
                 Z.pos (fst (shl_align mx ex ez)) * 2 ^ (ez - emin)).
    { rewrite shl_align_value by (unfold ez; lia).
      rewrite <- Z.mul_assoc, <- Z.pow_add_r by (unfold ez; lia).
      do 2 f_equal. lia. }
    assert (Hy : Z.pos my * 2 ^ (ey - emin) =
                 Z.pos (fst (shl_align my ey ez)) * 2 ^ (ez - emin)).
    { rewrite shl_align_value by (unfold ez; lia).
      rewrite <- Z.mul_assoc, <- Z.pow_add_r by (unfold ez; lia).
      do 2 f_equal. lia. }
    rewrite Hx, Hy.
    assert (0 < 2 ^ (ez - emin)) as Hp by (apply Z.pow_pos_nonneg; lia).
    generalize dependent (2 ^ (ez - emin)). intros P Hx Hy Hp.
    generalize (Z.pos (fst (shl_align mx ex ez))) (Z.pos (fst (shl_align my ey ez)))
      (Pos2Z.is_pos (fst (shl_align mx ex ez))) (Pos2Z.is_pos (fst (shl_align my ey ez))).
    intros a b Ha Hb. clear Hx Hy.
    assert (HM : forall s v, cond_Zopp s (v * P) = cond_Zopp s v * P)
      by (intros [] v; cbn [cond_Zopp]; lia).
    rewrite !HM.
    generalize dependent (cond_Zopp sx a). generalize dependent (cond_Zopp sy b).
    intros b' a'.
    pose proof (binary_normalize_sign (b' - a') ez Hez) as HS.
    destruct (b' - a') as [|q|q] eqn:EM.
    + rewrite HS. apply Z.ltb_ge. nia.
    + destruct (binary_normalize prec emax (Z.pos q) ez false) as [?|s'| |s' ? ?];
        cbn [signed_nonzero] in HS; try contradiction; subst s'; cbn [negb];
        apply Z.ltb_lt; nia.
    + destruct (binary_normalize prec emax (Z.neg q) ez false) as [?|s'| |s' ? ?];
        cbn [signed_nonzero] in HS; try contradiction; subst s'; cbn [negb];
        apply Z.ltb_ge; nia.
Qed.

End FloatFacts.

(** * Facts on primitive floats, through their specification *)

Module PrimFacts.
Import FloatFacts.
Local Open Scope float_scope.

Lemma Prim2SF_zero : Prim2SF 0 = S754_zero false.
Proof. reflexivity. Qed.

Lemma Prim2SF_nan : Prim2SF nan = S754_nan.
Proof. reflexivity. Qed.

Lemma Prim2SF_infinity : Prim2SF infinity = S754_infinity false.
Proof. reflexivity. Qed.

Lemma SFcompare_refl x : SFis_nan x = false -> SFcompare x x = Some Eq.
Proof.
  destruct x as [s|[]| |[] m e]; try discriminate; intros _; cbn [SFcompare];
    try reflexivity; rewrite Z.compare_refl;
    change (Pos.compare_cont Eq m m) with (m ?= m)%positive;
    now rewrite Pos.compare_refl.
Qed.

Lemma is_nan_spec x : is_nan x = SFis_nan (Prim2SF x).
Proof.
  unfold is_nan. rewrite eqb_spec. unfold SFeqb.
  destruct (SFis_nan (Prim2SF x)) eqn:E.
  - destruct (Prim2SF x); try discriminate. reflexivity.
  - now rewrite SFcompare_refl.
Qed.

Lemma nan_unique x : is_nan x = true -> x = nan.
Proof.
  rewrite is_nan_spec. intros H. apply Prim2SF_inj. rewrite Prim2SF_nan.
  destruct (Prim2SF x); try discriminate. reflexivity.
Qed.

(** *** Order *)

Lemma compare_key x y :
  is_nan x = false -> is_nan y = false ->
  SFcompare (Prim2SF x) (Prim2SF y) = Some (key x ?= key y)%Z.
Proof.
  rewrite !is_nan_spec. intros Nx Ny.
  apply SFcompare_rank; auto using Prim2SF_valid.
Qed.

Lemma ltb_key x y :
  is_nan x = false -> is_nan y = false -> (x <? y) = (key x <? key y)%Z.
Proof.
  intros Nx Ny. rewrite ltb_spec. unfold SFltb, Z.ltb.
  rewrite (compare_key _ _ Nx Ny). reflexivity.
Qed.

Lemma leb_key x y :
  is_nan x = false -> is_nan y = false -> (x <=? y) = (key x <=? key y)%Z.
Proof.
  intros Nx Ny. rewrite leb_spec. unfold SFleb, Z.leb.
  rewrite (compare_key _ _ Nx Ny). destruct (key x ?= key y)%Z; reflexivity.
Qed.

Lemma eqb_key x y :
  is_nan x = false -> is_nan y = false -> (x =? y) = (key x =? key y)%Z.
Proof.
  intros Nx Ny. rewrite eqb_spec. unfold SFeqb.
  rewrite (compare_key _ _ Nx Ny).
  destruct (Z.compare_spec (key x) (key y)); symmetry;
    [apply Z.eqb_eq | apply Z.eqb_neq | apply Z.eqb_neq]; lia.
Qed.

(** The comparator [b - a] is positive exactly when [a < b]. *)
Lemma sub_pos x y :
  is_nan x = false -> is_nan y = false ->
  (0 <? y - x) = (key x <? key y)%Z.
Proof.
  intros Nx Ny. rewrite ltb_spec, sub_spec, Prim2SF_zero.
  rewrite is_nan_spec in Nx, Ny.
  apply SFsub_sign; auto using Prim2SF_valid.
Qed.

(** *** Arithmetic *)

Lemma mul_comm x y : x * y = y * x.
Proof.
  apply Prim2SF_inj. rewrite !mul_spec. unfold SF64mul.
  destruct (Prim2SF x) as [sx|sx| |sx mx ex], (Prim2SF y) as [sy|sy| |sy my ey];
    cbn [SFmul]; rewrite ?(xorb_comm sx sy); try reflexivity.
  now rewrite Pos.mul_comm, Z.add_comm.
Qed.

Lemma add_nan_l x : nan + x = nan.
Proof. apply Prim2SF_inj. rewrite add_spec, Prim2SF_nan. reflexivity. Qed.

Lemma add_nan_r x : x + nan = nan.
Proof.
  apply Prim2SF_inj. rewrite add_spec, Prim2SF_nan. unfold SF64add.
  destruct (Prim2SF x); reflexivity.
Qed.

Lemma mul_nan_r x : x * nan = nan.
Proof.
  apply Prim2SF_inj. rewrite mul_spec, Prim2SF_nan. unfold SF64mul.
  destruct (Prim2SF x); reflexivity.
Qed.

Lemma div_nan_l x : nan / x = nan.
Proof. apply Prim2SF_inj. rewrite div_spec, Prim2SF_nan. reflexivity. Qed.

Lemma is_zero_spec x :
  is_zero x = true -> exists s, Prim2SF x = S754_zero s.
Proof.
  unfold is_zero. rewrite eqb_spec. change (Prim2SF zero) with (S754_zero false).
  unfold SFeqb.
  destruct (Prim2SF x) as [s|[]| |[] m e]; try discriminate. eauto.
Qed.

Lemma is_infinity_spec x :
  is_infinity x = match Prim2SF x with S754_infinity _ => true | _ => false end.
Proof.
  unfold is_infinity. rewrite eqb_spec, abs_spec, Prim2SF_infinity.
  destruct (Prim2SF x) as [s|[]| |[] m e]; reflexivity.
Qed.

(** Dividing by a product one of whose factors is zero never gives a
    finite number. *)
Lemma div_by_zero_product d m1 m2 :
  is_zero m1 = true \/ is_zero m2 = true ->
  is_nan (d / (m1 * m2)) = true \/ is_infinity (d / (m1 * m2)) = true.
Proof.
  intros H. rewrite is_nan_spec, is_infinity_spec, div_spec, mul_spec.
  unfold SF64div, SF64mul.
  destruct H as [H|H]; apply is_zero_spec in H as [s ->].
  - destruct (Prim2SF m2) as [s2|s2| |s2 p2 e2], (Prim2SF d) as [sd|sd| |sd pd ed];
      cbn [SFmul SFdiv SFis_nan]; auto.
  - destruct (Prim2SF m1) as [s2|s2| |s2 p2 e2], (Prim2SF d) as [sd|sd| |sd pd ed];
      cbn [SFmul SFdiv SFis_nan]; auto.
Qed.

Lemma not_zero_of_nonfinite x :
  is_nan x = true \/ is_infinity x = true -> (x =? 0) = false.
Proof.
  rewrite is_nan_spec, is_infinity_spec, eqb_spec, Prim2SF_zero. unfold SFeqb.
  destruct (Prim2SF x) as [s|[]| |[] m e]; cbn; intuition congruence.
Qed.

Lemma is_zero_SF x :
  is_zero x = match Prim2SF x with S754_zero _ => true | _ => false end.
Proof.
  unfold is_zero. rewrite eqb_spec. change (Prim2SF zero) with (S754_zero false).
  destruct (Prim2SF x) as [s|[]| |[] m e]; reflexivity.
Qed.

(** How a division ends when a factor of the divisor is zero: the divisor
    is zero or [NaN]; the quotient is an infinity when the divisor is zero
    and the dividend a number other than zero, and [NaN] otherwise. *)
Lemma div_by_zero_factor d m1 m2 :
  is_zero m1 = true \/ is_zero m2 = true ->
  (is_zero (m1 * m2) = true \/ is_nan (m1 * m2) = true) /\
  (if is_zero (m1 * m2) && negb (is_nan d) && negb (is_zero d)
   then is_infinity (d / (m1 * m2)) = true
   else d / (m1 * m2) = nan).
Proof.
  intros H.
  assert (E : forall x, (if is_zero (m1 * m2) && negb (is_nan d) && negb (is_zero d)
                         then is_infinity x = true else x = nan) <->
                        (if is_zero (m1 * m2) && negb (is_nan d) && negb (is_zero d)
                         then is_infinity x = true else Prim2SF x = S754_nan)).
  { intros x. destruct (_ && _ && _); [reflexivity|]. split.
    - intros ->. reflexivity.
    - intros Hx. apply Prim2SF_inj. now rewrite Hx. }
  rewrite E. clear E.
  rewrite is_infinity_spec, is_nan_spec, !is_zero_SF, (is_nan_spec d), div_spec, mul_spec.
  rewrite !is_zero_SF in H. unfold SF64div, SF64mul.
  destruct (Prim2SF m1) as [s1|s1| |s1 p1 e1], (Prim2SF m2) as [s2|s2| |s2 p2 e2];
    try (destruct H; discriminate);
    destruct (Prim2SF d) as [sd|sd| |sd pd ed];
    cbn [SFmul SFdiv SFis_nan negb andb]; auto.
Qed.

End PrimFacts.

(** * Arrays: [map], [reduce], [slice] and [sort] *)

Module ArrayFacts.

Section Generic.
Context {A B : Type}.

(** [arr.map] visits position [j] with the element found there. *)
Lemma map_from_seq (f : A -> nat -> B) (d : A) l : forall pre,
  map_from f (List.length pre) l =
  List.map (fun j => f (nth j (pre ++ l) d) j) (seq (List.length pre) (List.length l)).
Proof.
  induction l as [|x l IH]; intros pre; cbn [map_from List.length seq List.map].
  - reflexivity.
  - rewrite app_nth2, Nat.sub_diag by lia. cbn [nth]. f_equal.
    specialize (IH (pre ++ [x])).
    rewrite length_app, Nat.add_1_r, <- app_assoc in IH. exact IH.
Qed.

Lemma map_seq (f : A -> nat -> B) (d : A) l :
  JS.map f l = List.map (fun j => f (nth j l d) j) (seq 0 (List.length l)).
Proof. exact (map_from_seq f d l []). Qed.

Lemma reduce_from_ext (f g : B -> A -> nat -> B) l : forall i acc,
  (forall acc' x j, i <= j < i + List.length l -> nth_error l (j - i) = Some x ->
     f acc' x j = g acc' x j) ->
  reduce_from f i acc l = reduce_from g i acc l.
Proof.
  induction l as [|x l IH]; intros i acc H; cbn [reduce_from]; [reflexivity|].
  rewrite (H acc x i) by (cbn [List.length]; rewrite ?Nat.sub_diag; auto; lia).
  apply IH. intros acc' y j Hj Hy. apply H; [cbn [List.length]; lia|].
  replace (j - i) with (S (j - S i)) by lia. exact Hy.
Qed.

End Generic.

Section Sorting.
Context {A : Type}.

Lemma insert_insert_by (comparefn : A -> A -> number) x l :
  insert comparefn x l =
  insert_by (fun y x => (0 <? SortCompare comparefn y x)%float) x l.
Proof.
  induction l as [|y l IH]; cbn [insert insert_by]; [reflexivity|].
  now rewrite IH.
Qed.

Lemma sort_sort_by (comparefn : A -> A -> number) l :
  sort comparefn l =
  sort_by (fun y x => (0 <? SortCompare comparefn y x)%float) l.
Proof.
  unfold sort, sort_by. generalize (@nil A).
  induction l as [|x l IH]; intros acc; cbn [fold_left]; [reflexivity|].
  now rewrite insert_insert_by, IH.
Qed.

Variable after : A -> A -> bool.

Lemma insert_by_perm x l : Permutation (insert_by after x l) (x :: l).
Proof.
  induction l as [|y l IH]; cbn [insert_by]; [reflexivity|].
  destruct (after y x); [reflexivity|].
  rewrite IH. apply perm_swap.
Qed.

Lemma fold_insert_perm l : forall acc,
  Permutation (fold_left (fun sorted x => insert_by after x sorted) l acc) (acc ++ l).
Proof.
  induction l as [|x l IH]; intros acc; cbn [fold_left].
  - now rewrite app_nil_r.
  - rewrite IH, insert_by_perm. apply Permutation_middle.
Qed.

Lemma sort_by_perm l : Permutation (sort_by after l) l.
Proof. exact (fold_insert_perm l []). Qed.

Lemma sort_by_length l : List.length (sort_by after l) = List.length l.
Proof. apply Permutation_length, sort_by_perm. Qed.

End Sorting.

(** Sorting commutes with a map that respects the test. *)
Section Naturality.
Context {A B : Type} (f : B -> A).
Variables (afterA : A -> A -> bool) (afterB : B -> B -> bool).

Lemma insert_by_map x l :
  (forall y, In y l -> afterA (f y) (f x) = afterB y x) ->
  insert_by afterA (f x) (List.map f l) = List.map f (insert_by afterB x l).
Proof.
  induction l as [|y l IH]; intros H; cbn [insert_by List.map]; [reflexivity|].
  rewrite H by (left; reflexivity).
  destruct (afterB y x); [reflexivity|].
  cbn [List.map]. f_equal. apply IH. intros z Hz. apply H. now right.
Qed.

Lemma sort_by_map l :
  (forall x y, In x l -> In y l -> afterA (f y) (f x) = afterB y x) ->
  sort_by afterA (List.map f l) = List.map f (sort_by afterB l).
Proof.
  intros H. unfold sort_by.
  change (@nil A) with (List.map f []).
  assert (Hacc : forall y, In y (@nil B) -> In y l) by (intros y []).
  revert Hacc. generalize (@nil B) as acc.
  assert (Hl : forall y, In y l -> In y l) by auto.
  revert Hl. generalize l at 1 4 5 as todo.
  induction todo as [|x todo IH]; intros Hl acc Hacc; cbn [fold_left List.map];
    [reflexivity|].
  rewrite insert_by_map.
  - apply IH.
    + intros y Hy. apply Hl. now right.
    + intros y Hy. apply (Permutation_in _ (insert_by_perm afterB x acc)) in Hy.
      destruct Hy as [<-|Hy]; [apply Hl; now left | now apply Hacc].
  - intros y Hy. apply H; [apply Hl; now left | now apply Hacc].
Qed.

End Naturality.

(** Sorting positions by decreasing key: the result is ordered and stable. *)
Section ByKey.
Variable k : nat -> Z.

Let after (y x : nat) : bool := (k y <? k x)%Z.
Let precedes := precedes k.

Lemma Forall_insert_by (P : nat -> Prop) x l :
  P x -> Forall P l -> Forall P (insert_by after x l).
Proof.
  intros Hx Hl. rewrite Forall_forall in *. intros y Hy.
  apply (Permutation_in _ (insert_by_perm after x l)) in Hy.
  destruct Hy as [<-|Hy]; auto.
Qed.

Lemma insert_by_sorted x l :
  StronglySorted precedes l -> Forall (fun y => y < x) l ->
  StronglySorted precedes (insert_by after x l).
Proof.
  induction 1 as [|y l Hs IH Hy]; intros Hlt; cbn [insert_by].
  - constructor; constructor.
  - apply Forall_cons_iff in Hlt as [Hyx Hlt]. unfold after at 1.
    destruct (Z.ltb_spec (k y) (k x)) as [Hk|Hk].
    + constructor; [constructor; assumption|].
      constructor; [split; lia|].
      rewrite Forall_forall in *. intros z Hz. destruct (Hy z Hz) as [Hz1 _].
      split; lia.
    + constructor; [apply IH; assumption|].
      apply Forall_insert_by; [split; lia | assumption].
Qed.

Lemma fold_insert_sorted todo : forall acc,
  StronglySorted precedes acc ->
  StronglySorted lt todo ->
  (forall y x, In y acc -> In x todo -> y < x) ->
  StronglySorted precedes (fold_left (fun sorted x => insert_by after x sorted) todo acc).
Proof.
  induction todo as [|x todo IH]; intros acc Hacc Htodo Hlt; cbn [fold_left];
    [assumption|].
  apply StronglySorted_inv in Htodo as [Htodo Hx].
  apply IH; [|assumption|].
  - apply insert_by_sorted; [assumption|].
    rewrite Forall_forall. intros y Hy. apply Hlt; [assumption | now left].
  - intros y z Hy Hz.
    apply (Permutation_in _ (insert_by_perm after x acc)) in Hy.
    destruct Hy as [<-|Hy].
    + rewrite Forall_forall in Hx. now apply Hx.
    + apply Hlt; [assumption | now right].
Qed.

Lemma seq_sorted n : forall s, StronglySorted lt (seq s n).
Proof.
  induction n as [|n IH]; intros s; cbn [seq]; constructor; [apply IH|].
  rewrite Forall_forall. intros y Hy. apply in_seq in Hy. lia.
Qed.

Lemma sort_by_seq_sorted n :
  StronglySorted precedes (sort_by after (seq 0 n)).
Proof.
  apply fold_insert_sorted; [constructor | apply seq_sorted | intros y x []].
Qed.

End ByKey.

Lemma StronglySorted_firstn {A} (R : A -> A -> Prop) l :
  StronglySorted R l -> forall n, StronglySorted R (firstn n l).
Proof.
  induction 1 as [|x l Hs IH Hx]; intros [|n]; cbn [firstn]; try constructor.
  - apply IH.
  - rewrite Forall_forall in *. intros y Hy. apply Hx.
    rewrite <- (firstn_skipn n l). apply in_or_app. now left.
Qed.

Lemma StronglySorted_nth {A} (R : A -> A -> Prop) l :
  StronglySorted R l ->
  forall p q x y, p < q -> nth_error l p = Some x -> nth_error l q = Some y -> R x y.
Proof.
  induction 1 as [|z l Hs IH Hz]; intros p q x y Hpq Hp Hq.
  - destruct p; discriminate.
  - destruct q as [|q]; [lia|]. cbn [nth_error] in Hq.
    destruct p as [|p]; cbn [nth_error] in Hp.
    + injection Hp as <-. rewrite Forall_forall in Hz.
      apply Hz. eapply nth_error_In; eassumption.
    + apply (IH p q); auto; lia.
Qed.

(** [slice(0, k)] keeps a prefix. *)
Lemma slice_0 {A} (l : list A) k :
  slice l 0 k = firstn (Z.to_nat (relative_index (Z.of_nat (List.length l)) k)) l.
Proof.
  unfold slice.
  assert (relative_index (Z.of_nat (List.length l)) 0 = 0%Z) as ->
    by (unfold relative_index; cbn; lia).
  cbn [Z.to_nat skipn]. f_equal. f_equal.
  assert (0 <= relative_index (Z.of_nat (List.length l)) k)%Z
    by (unfold relative_index; destruct (Z.ltb_spec k 0); lia).
  lia.
Qed.

End ArrayFacts.

(** * The ranker and the pipelines *)

Module SearchFacts.
Import PrimFacts ArrayFacts.

(** The comparator of [similaritySearch], read through [SortCompare]. *)
Lemma comparator_after (a b : number) :
  is_nan a = false -> is_nan b = false ->
  (0 <? (if is_nan (b - a) then 0 else b - a))%float = (key a <? key b)%Z.
Proof.
  intros Na Nb. rewrite <- (sub_pos a b Na Nb).
  destruct (is_nan (b - a)%float) eqn:E; [|reflexivity].
  apply nan_unique in E. rewrite E. reflexivity.
Qed.

Lemma StronglySorted_precedes_NoDup k l :
  StronglySorted (precedes k) l -> NoDup l.
Proof.
  induction 1 as [|x l Hs IH Hx]; constructor; [|assumption].
  intros Hin. rewrite Forall_forall in Hx. destruct (Hx x Hin) as [_ H].
  specialize (H eq_refl). lia.
Qed.

Section Ranking.
Variable Id : Type.
Variable this : CustomVectorStore Id.
Variable queryEmbedding : Vector.

Let n := List.length (vectors this).
Let comparefn (a b : Scored Id) : number := (similarity b - similarity a)%float.
Let after_scored (y x : Scored Id) : bool := (0 <? SortCompare comparefn y x)%float.

Lemma rank_documents_unfold k :
  rank_documents this queryEmbedding k =
  List.map (@document Id)
    (firstn (Z.to_nat (relative_index (Z.of_nat n) k))
       (sort_by after_scored (List.map (scored_at this queryEmbedding) (seq 0 n)))).
Proof.
  unfold rank_documents. rewrite (ArrayFacts.map_seq _ [] (vectors this)).
  rewrite slice_0, sort_sort_by, sort_by_length, length_map, length_seq.
  reflexivity.
Qed.

Lemma rank_documents_length k :
  Z.of_nat (List.length (rank_documents this queryEmbedding k)) =
  relative_index (Z.of_nat n) k.
Proof.
  rewrite rank_documents_unfold, length_map, length_firstn, sort_by_length,
    length_map, length_seq.
  unfold relative_index. destruct (Z.ltb_spec k 0); lia.
Qed.


Lemma rank_documents_sorted k :
  (forall v, In v (vectors this) -> is_nan (cosineSimilarity queryEmbedding v) = false) ->
  exists idx,
    rank_documents this queryEmbedding k = List.map (nth_error (documents this)) idx /\
    Forall (fun i => i < n) idx /\
    StronglySorted (precedes (fun i => key (similarity_at this queryEmbedding i))) idx.
Proof.
  intros Hnan.
  set (ky := fun i => key (similarity_at this queryEmbedding i)).
  set (sorted := sort_by (fun y x => (ky y <? ky x)%Z) (seq 0 n)).
  exists (firstn (Z.to_nat (relative_index (Z.of_nat n) k)) sorted).
  assert (Hin : forall i, In i sorted -> i < n).
  { intros i Hi. apply (Permutation_in _ (sort_by_perm _ _)) in Hi.
    apply in_seq in Hi. lia. }
  split; [|split].
  - rewrite rank_documents_unfold.
    rewrite (sort_by_map (scored_at this queryEmbedding) after_scored
               (fun y x => (ky y <? ky x)%Z)).
    + fold sorted. rewrite firstn_map, map_map. reflexivity.
    + intros x y Hx Hy. apply in_seq in Hx, Hy.
      unfold after_scored, SortCompare, comparefn, scored_at. cbn [similarity].
      apply comparator_after; apply Hnan, nth_In; fold n; lia.
  - rewrite Forall_forall. intros i Hi. apply Hin.
    rewrite <- (firstn_skipn (Z.to_nat (relative_index (Z.of_nat n) k)) sorted).
    apply in_or_app. now left.
  - apply StronglySorted_firstn. apply sort_by_seq_sorted.
Qed.

Lemma similaritySearch_normal query k :
  getEmbeddings (extractor this) query = Normal queryEmbedding ->
  similaritySearch this query k =
  (Normal (rank_documents this queryEmbedding
             match k with Some k => k | None => 3%Z end), this).
Proof.
  intros Hq. unfold similaritySearch. rewrite Hq. reflexivity.
Qed.

End Ranking.

(** [reduce] over [a] reads [b] only at the positions of [a]. *)
Lemma dot_reduce_nan (b : Vector) a : forall i,
  reduce_from (fun sum val i => sum + val * ToNumber (nth_error b i))%float i nan a = nan.
Proof.
  induction a as [|x a IH]; intros i; cbn [reduce_from]; [reflexivity|].
  rewrite add_nan_l. apply IH.
Qed.

Lemma dot_reduce_overrun (b : Vector) a : forall i acc,
  i <= List.length b < i + List.length a ->
  reduce_from (fun sum val i => sum + val * ToNumber (nth_error b i))%float i acc a = nan.
Proof.
  induction a as [|x a IH]; intros i acc H; cbn [List.length] in H; [lia|].
  cbn [reduce_from].
  destruct (Nat.eq_dec i (List.length b)) as [->|Hne].
  - assert (nth_error b (List.length b) = None) as -> by (apply nth_error_None; lia).
    cbn [ToNumber]. rewrite mul_nan_r, add_nan_r. apply dot_reduce_nan.
  - apply IH. lia.
Qed.

Lemma dot_reduce_combine a : forall b pre acc,
  List.length a = List.length b ->
  reduce_from (fun sum val i => sum + val * ToNumber (nth_error (pre ++ b) i))%float
    (List.length pre) acc a =
  fold_left (fun sum xy => sum + fst xy * snd xy)%float (combine a b) acc.
Proof.
  induction a as [|x a IH]; intros [|y b] pre acc H; try discriminate;
    cbn [reduce_from combine fold_left]; [reflexivity|].
  rewrite nth_error_app2, Nat.sub_diag by lia. cbn [nth_error ToNumber fst snd].
  specialize (IH b (pre ++ [y]) (acc + x * y)%float).
  rewrite length_app, Nat.add_1_r, <- app_assoc in IH. apply IH.
  now injection H.
Qed.

Lemma dotProduct_combine a b :
  List.length a = List.length b ->
  dotProduct a b = fold_left (fun sum xy => sum + fst xy * snd xy)%float (combine a b) 0%float.
Proof. intros H. exact (dot_reduce_combine a b [] 0%float H). Qed.

Lemma fold_combine_comm a : forall b acc,
  fold_left (fun sum xy => sum + fst xy * snd xy)%float (combine a b) acc =
  fold_left (fun sum xy => sum + fst xy * snd xy)%float (combine b a) acc.
Proof.
  induction a as [|x a IH]; intros [|y b] acc; cbn [combine fold_left fst snd];
    try reflexivity.
  rewrite (mul_comm x y). apply IH.
Qed.

Lemma dotProduct_comm a b :
  List.length a = List.length b -> dotProduct a b = dotProduct b a.
Proof.
  intros H. rewrite (dotProduct_combine a b H), (dotProduct_combine b a (eq_sym H)).
  apply fold_combine_comm.
Qed.

Lemma dotProduct_prefix a b :
  List.length a <= List.length b ->
  dotProduct a b = dotProduct a (firstn (List.length a) b).
Proof.
  intros H. unfold dotProduct, reduce. apply reduce_from_ext.
  intros acc x j Hj _. do 3 f_equal.
  rewrite nth_error_firstn. unfold number in *.
  destruct (Nat.ltb_spec j (List.length a)); [reflexivity | exfalso; lia].
Qed.

Lemma cosineSimilarity_unfold a b :
  cosineSimilarity a b = (dotProduct a b / (magnitude a * magnitude b))%float.
Proof. reflexivity. Qed.

(** [Promise.all] over the embeddings of the documents. *)
Lemma Promise_all_map {A B} (f : A -> completion B) l :
  (forall x, In x l -> exists v, f x = Normal v) ->
  exists vs, Promise_all (List.map f l) = Normal vs /\
             Forall2 (fun x v => f x = Normal v) l vs.
Proof.
  induction l as [|x l IH]; intros H; cbn [List.map Promise_all].
  - exists []. split; [reflexivity | constructor].
  - destruct (H x (or_introl eq_refl)) as [v Hv].
    destruct IH as (vs & Hvs & HF); [intros y Hy; apply H; now right|].
    exists (v :: vs). rewrite Hv, Hvs. split; [reflexivity|].
    constructor; assumption.
Qed.

End SearchFacts.

(** * The heap *)

Module ObjectFacts.

Section Heap.
Variable Id : Type.

Lemma assign_length (h : Objects.heap Id) : forall address a,
  List.length (Objects.assign h address a) = List.length h.
Proof.
  induction h as [|b h IH]; intros [|address] a; cbn [Objects.assign List.length];
    try reflexivity. now rewrite IH.
Qed.

Lemma assign_same (h : Objects.heap Id) : forall address a,
  address < List.length h -> nth_error (Objects.assign h address a) address = Some a.
Proof.
  induction h as [|b h IH]; intros [|address] a Hlt; cbn [List.length] in Hlt;
    cbn [Objects.assign nth_error]; try lia; [reflexivity|].
  apply IH. lia.
Qed.

Lemma assign_last (h : Objects.heap Id) a b :
  Objects.assign (h ++ [a]) (List.length h) b = h ++ [b].
Proof. induction h as [|c h IH]; cbn; [reflexivity | now rewrite IH]. Qed.

Lemma allocated_new (h : Objects.heap Id) a :
  nth_error (h ++ [a]) (List.length h) = Some a.
Proof. rewrite nth_error_app2, Nat.sub_diag by lia. reflexivity. Qed.

Lemma allocated_kept (h later : Objects.heap Id) address :
  address < List.length h -> nth_error (h ++ later) address = nth_error h address.
Proof. intros H. now apply nth_error_app1. Qed.

Lemma retrieved_third (h later : Objects.heap Id) a b entries :
  Objects.retrieved (Normal (S (S (List.length h))))
    ((h ++ [a; b; Objects.OfRetrieved entries]) ++ later)
  = Normal entries.
Proof.
  unfold Objects.retrieved. cbn [JS.bind].
  rewrite <- app_assoc, nth_error_app2 by lia.
  replace (S (S (List.length h)) - List.length h) with 2 by lia. reflexivity.
Qed.

(** A search on a well-formed store: the address it returns, the three
    arrays it adds to the heap, and what the last of them holds. *)
Lemma similaritySearch_run (this : Objects.CustomVectorStore) query k
    (h : Objects.heap Id) qe stored held :
  getEmbeddings (Objects.extractor this) query = Normal qe ->
  nth_error h (Objects.vectors this) = Some (Objects.OfVectors Id stored) ->
  nth_error h (Objects.documents this) = Some (Objects.OfDocuments held) ->
  exists scored top,
    Objects.similaritySearch this query k h
    = (Normal (S (S (List.length h))),
       h ++ [Objects.OfScored scored; Objects.OfScored top;
             Objects.OfRetrieved
               (rank_documents
                  {| vectors := stored; documents := held;
                     extractor := Objects.extractor this |}
                  qe match k with Some k => k | None => 3%Z end)]).
Proof.
  intros Hq Hv Hd. unfold Objects.similaritySearch. rewrite Hq, Hv, Hd.
  unfold Objects.allocate, Objects.sort_in_place.
  rewrite allocated_new, assign_last, allocated_new, allocated_new.
  rewrite !length_app. cbn [List.length].
  eexists _, _. f_equal.
  - f_equal. lia.
  - rewrite <- !app_assoc. reflexivity.
Qed.

End Heap.
End ObjectFacts.


Import PrimFacts ArrayFacts SearchFacts.

(** * The claims of the specification *)

(** ** C1: size of the result of a search *)




(** ** C2: loading sequences of unequal lengths *)

(** C2, as the code has it.  [addVectors] never fails and checks no
    length: whatever the two sequences, it completes normally and the store
    holds exactly the given vectors and the given documents, with the
    extractor it had. *)
Theorem addVectors_replaces :
  forall (Id : Type) (this : CustomVectorStore Id) (vs : list Vector)
         (ds : list (Document Id)),
    fst (addVectors this vs ds) = Normal tt /\
    vectors (snd (addVectors this vs ds)) = vs /\
    documents (snd (addVectors this vs ds)) = ds /\
    extractor (snd (addVectors this vs ds)) = extractor this.
Proof. intros. repeat split. Qed.

(** C2 as stated fails: three vectors and two documents are accepted, and
    the store is left with sequences of lengths 3 and 2. *)
Lemma addVectors_unequal_lengths :
  addVectors new_CustomVectorStore
    [[1; 0]; [0; 1]; [1; 1]]%float [Sample.cats; Sample.rockets]
  = (Normal tt,
     {| vectors := [[1; 0]; [0; 1]; [1; 1]]%float;
        documents := [Sample.cats; Sample.rockets];
        extractor := None |}) /\
  List.length [[1; 0]; [0; 1]; [1; 1]]%float
    <> List.length [Sample.cats; Sample.rockets].
Proof. split; [reflexivity | discriminate]. Qed.

(** ** C3: order of the result *)

(** C3, as the code has it.  When no stored vector has a [NaN] similarity
    to the query, the documents returned are those of distinct positions
    [idx] of the store, in an order where similarities never increase and
    where, of two positions with equal similarity, the earlier comes first. *)
Theorem similaritySearch_sorted_stable :
  forall (Id : Type) (this : CustomVectorStore Id) (query : string) (k : option Z)
         (queryEmbedding : Vector),
    getEmbeddings (extractor this) query = Normal queryEmbedding ->
    (forall v, In v (vectors this) ->
       is_nan (cosineSimilarity queryEmbedding v) = false) ->
    exists idx : list nat,
      fst (similaritySearch this query k)
        = Normal (List.map (nth_error (documents this)) idx) /\
      NoDup idx /\
      Forall (fun i => i < List.length (vectors this)) idx /\
      forall p q i j,
        p < q -> nth_error idx p = Some i -> nth_error idx q = Some j ->
        (similarity_at this queryEmbedding j <=? similarity_at this queryEmbedding i)%float
          = true /\
        ((similarity_at this queryEmbedding i =? similarity_at this queryEmbedding j)%float
           = true -> i < j).
Proof.
  intros Id this query k qe Hq Hnan.
  set (k' := match k with Some k => k | None => 3%Z end).
  destruct (rank_documents_sorted Id this qe k' Hnan) as (idx & Hr & Hlt & Hs).
  exists idx. split; [|split; [|split]].
  - rewrite (similaritySearch_normal Id this qe query k Hq). cbn [fst].
    fold k'. now rewrite Hr.
  - eapply StronglySorted_precedes_NoDup; eassumption.
  - exact Hlt.
  - intros p q i j Hpq Hi Hj.
    assert (Ni : is_nan (similarity_at this qe i) = false).
    { apply Hnan, nth_In. rewrite Forall_forall in Hlt.
      eapply Hlt, nth_error_In; eassumption. }
    assert (Nj : is_nan (similarity_at this qe j) = false).
    { apply Hnan, nth_In. rewrite Forall_forall in Hlt.
      eapply Hlt, nth_error_In; eassumption. }
    destruct (StronglySorted_nth _ _ Hs p q i j Hpq Hi Hj) as [Hle Htie].
    split.
    + rewrite (leb_key _ _ Nj Ni). now apply Z.leb_le.
    + rewrite (eqb_key _ _ Ni Nj). intros E. apply Z.eqb_eq in E. auto.
Qed.

(** Two stored vectors at the same similarity: insertion order is kept. *)
Lemma similaritySearch_sorted_stable_witness :
  getEmbeddings (extractor Sample.tied) "kittens" = Normal [1; 0]%float /\
  (forall v, In v (vectors Sample.tied) ->
     is_nan (cosineSimilarity [1; 0]%float v) = false) /\
  exists idx : list nat,
    fst (similaritySearch Sample.tied "kittens" None)
      = Normal (List.map (nth_error (documents Sample.tied)) idx) /\
    NoDup idx /\
    Forall (fun i => i < List.length (vectors Sample.tied)) idx /\
    forall p q i j,
      p < q -> nth_error idx p = Some i -> nth_error idx q = Some j ->
      (similarity_at Sample.tied [1; 0] j <=? similarity_at Sample.tied [1; 0] i)%float
        = true /\
      ((similarity_at Sample.tied [1; 0] i =? similarity_at Sample.tied [1; 0] j)%float
         = true -> i < j).
Proof.
  assert (Hnan : forall v, In v (vectors Sample.tied) ->
                   is_nan (cosineSimilarity [1; 0]%float v) = false).
  { intros v [<-|[<-|[<-|[]]]]; reflexivity. }
  split; [reflexivity|]. split; [exact Hnan|].
  exact (similaritySearch_sorted_stable nat Sample.tied "kittens" None [1; 0]%float
           eq_refl Hnan).
Defined.

(** C3 as stated fails on a store holding a zero vector: its similarity is
    [NaN], which is neither above nor below the similarity 1 of the other
    document, so no order of the two is one of non-increasing similarity. *)
Lemma similaritySearch_nan_unordered :
  fst (similaritySearch Sample.with_zero_vector "kittens" (Some 3%Z))
    = Normal [Some Sample.cats; Some Sample.rockets] /\
  (cosineSimilarity [1; 0] [1; 0] <=? cosineSimilarity [1; 0] [0; 0])%float = false /\
  (cosineSimilarity [1; 0] [0; 0] <=? cosineSimilarity [1; 0] [1; 0])%float = false.
Proof. repeat split; vm_compute; reflexivity. Qed.

(** ** C4: vectors of unequal lengths *)

(** C4, as the code has it.  On vectors of unequal lengths
    [cosineSimilarity] raises nothing and returns a number: [NaN] when [a]
    is the longer one, and otherwise the dot product of [a] with the first
    [length a] components of [b] over the product of the two full
    magnitudes. *)
Theorem cosineSimilarity_unequal_lengths :
  forall a b : Vector,
    List.length a <> List.length b ->
    (List.length b < List.length a -> cosineSimilarity a b = nan) /\
    (List.length a < List.length b ->
     cosineSimilarity a b =
       (dotProduct a (firstn (List.length a) b) / (magnitude a * magnitude b))%float).
Proof.
  intros a b _. split; intros H; rewrite cosineSimilarity_unfold.
  - unfold dotProduct at 1, reduce.
    rewrite dot_reduce_overrun by (unfold Vector, number in *; lia).
    apply div_nan_l.
  - rewrite <- dotProduct_prefix by (unfold Vector, number in *; lia).
    reflexivity.
Qed.

Lemma cosineSimilarity_unequal_lengths_witness :
  List.length [1; 2; 3]%float <> List.length [1; 0]%float /\
  cosineSimilarity [1; 2; 3]%float [1; 0]%float = nan.
Proof.
  split; [discriminate|].
  apply (proj1 (cosineSimilarity_unequal_lengths [1; 2; 3]%float [1; 0]%float
                  ltac:(discriminate))).
  cbn [List.length]. lia.
Defined.

(** C4 as stated fails: a vector of length 1 against one of length 2 gives
    the number 1. *)
Lemma cosineSimilarity_no_dimension_error :
  List.length [1]%float <> List.length [1; 0]%float /\
  cosineSimilarity [1]%float [1; 0]%float = 1%float.
Proof. split; [discriminate | reflexivity]. Qed.

(** ** C5: vectors of zero magnitude *)

(** C5, as the code has it.  When the magnitude computed for either vector
    is zero, the divisor [magnitudeA * magnitudeB] is zero or [NaN] and the
    result is not finite and never 0: it is an infinity when the divisor is
    zero and the dot product is a number other than zero, and [NaN] in every
    other case. *)
Theorem cosineSimilarity_zero_magnitude :
  forall a b : Vector,
    is_zero (magnitude a) = true \/ is_zero (magnitude b) = true ->
    (is_zero (magnitude a * magnitude b) = true \/
     is_nan (magnitude a * magnitude b) = true) /\
    (if is_zero (magnitude a * magnitude b)
        && negb (is_nan (dotProduct a b)) && negb (is_zero (dotProduct a b))
     then is_infinity (cosineSimilarity a b) = true
     else cosineSimilarity a b = nan) /\
    (is_nan (cosineSimilarity a b) = true \/ is_infinity (cosineSimilarity a b) = true) /\
    (cosineSimilarity a b =? 0)%float = false.
Proof.
  intros a b H. rewrite !cosineSimilarity_unfold.
  pose proof (div_by_zero_factor (dotProduct a b) _ _ H) as [Hdiv Hcase].
  pose proof (div_by_zero_product (dotProduct a b) _ _ H) as Hd.
  split; [exact Hdiv|]. split; [exact Hcase|].
  split; [exact Hd | exact (not_zero_of_nonfinite _ Hd)].
Qed.

Lemma cosineSimilarity_zero_magnitude_witness :
  (is_zero (magnitude [0x1p-600]%float) = true \/
   is_zero (magnitude [0x1p+100]%float) = true) /\
  is_infinity (cosineSimilarity [0x1p-600] [0x1p+100])%float = true /\
  (cosineSimilarity [0x1p-600] [0x1p+100] =? 0)%float = false.
Proof.
  split; [left; reflexivity|].
  destruct (cosineSimilarity_zero_magnitude [0x1p-600]%float [0x1p+100]%float
              (or_introl eq_refl)) as (_ & Hcase & _ & Hne).
  split; [exact Hcase | exact Hne].
Defined.

(** C5 as stated fails: against the zero vector the result is [NaN], and
    it does not compare equal to 0. *)
Lemma cosineSimilarity_zero_vector_nan :
  List.length [0; 0]%float = List.length [1; 0]%float /\
  is_zero (magnitude [0; 0]%float) = true /\
  cosineSimilarity [0; 0]%float [1; 0]%float = nan /\
  (cosineSimilarity [0; 0] [1; 0] =? 0)%float = false.
Proof. repeat split. Qed.

(** ** C6: the text of a document *)

(** C6.  [formatDocuments] turns the records one by one, in order, into
    documents whose text is ["Title: " + title + "\nContent: " + content];
    no record gives no document. *)
Theorem formatDocuments_layout :
  forall (Id : Type),
    formatDocuments (@nil (RawItem Id)) = [] /\
    (forall rawData : list (RawItem Id),
       Forall2 (@formatted Id) rawData (formatDocuments rawData)) /\
    (forall (i : Id) (t c : string),
       List.map pageContent
         (formatDocuments
            [{| item_id := i; item_title := Some t; item_content := Some c |}])
       = [("Title: " ++ t ++ String "010"%char ("Content: " ++ c))%string]).
Proof.
  intros Id. split; [reflexivity|]. split.
  - induction rawData as [|item rawData IH]; cbn [formatDocuments List.map].
    + constructor.
    + constructor; [repeat split | exact IH].
  - intros i t c. reflexivity.
Qed.

(** ** C7: vectors and documents are paired by position *)

(** C7.  When every document can be embedded, [createVectorStore] returns
    a store that holds the documents as given and, at each position, the
    embedding of the text of the document at that position. *)
Theorem createVectorStore_pairs :
  forall (Id : Type) (docs : list (Document Id)) (extractor' : Extractor),
    (forall doc, In doc docs -> exists v, extractor' (pageContent doc) = Normal v) ->
    exists store,
      createVectorStore docs extractor' = Normal store /\
      documents store = docs /\
      extractor store = Some extractor' /\
      List.length (vectors store) = List.length docs /\
      Forall2 (fun doc v => extractor' (pageContent doc) = Normal v)
        (documents store) (vectors store) /\
      forall i doc, nth_error (documents store) i = Some doc ->
        exists v, nth_error (vectors store) i = Some v /\
                  extractor' (pageContent doc) = Normal v.
Proof.
  intros Id docs ex H.
  destruct (Promise_all_map (fun doc => getEmbeddings (Some ex) (pageContent doc)) docs H)
    as (vs & Hall & HF).
  cbn [getEmbeddings] in HF.
  exists {| vectors := vs; documents := docs; extractor := Some ex |}.
  split; [unfold createVectorStore; rewrite Hall; reflexivity|].
  cbn [documents vectors extractor].
  split; [reflexivity|]. split; [reflexivity|].
  split; [symmetry; eapply Forall2_length; eassumption|].
  split; [exact HF|].
  clear Hall H. induction HF as [|d v ds vs' Hd HF IH]; intros [|i] doc Hi;
    cbn [nth_error] in *; try discriminate.
  - injection Hi as <-. eauto.
  - eauto.
Qed.

Lemma createVectorStore_pairs_witness :
  (forall doc, In doc [Sample.cats; Sample.rockets] ->
     exists v, Sample.by_topic (pageContent doc) = Normal v) /\
  exists store,
    createVectorStore [Sample.cats; Sample.rockets] Sample.by_topic = Normal store /\
    documents store = [Sample.cats; Sample.rockets] /\
    List.length (vectors store) = 2.
Proof.
  assert (H : forall doc, In doc [Sample.cats; Sample.rockets] ->
                exists v, Sample.by_topic (pageContent doc) = Normal v).
  { intros doc [<-|[<-|[]]]; eexists; reflexivity. }
  split; [exact H|].
  destruct (createVectorStore_pairs nat [Sample.cats; Sample.rockets] Sample.by_topic H)
    as (store & Hs & Hd & _ & Hl & _).
  exists store. repeat split; assumption.
Defined.

(** ** C8: searching does not change the store *)

(** C8.  On the heap, a search on a store whose fields hold its two arrays
    writes to no array that existed before it: it makes three arrays of its
    own and sorts one of them where it is.  So the store is unchanged, a
    second search with the same query and the same [k] on the heap the first
    one left retrieves the same sequence of documents, the sequence the
    first search retrieved is still there, and it is the sequence the search
    of the first model computes from the contents of the store. *)
Theorem similaritySearch_repeatable :
  forall (Id : Type) (this : Objects.CustomVectorStore) (query : string) (k : option Z)
         (h : Objects.heap Id),
    well_formed this h ->
    forall found h' again h'',
      Objects.similaritySearch this query k h = (found, h') ->
      Objects.similaritySearch this query k h' = (again, h'') ->
      (forall address, address < List.length h ->
         nth_error h' address = nth_error h address) /\
      contents this h' = contents this h /\
      Objects.retrieved again h'' = Objects.retrieved found h' /\
      Objects.retrieved found h'' = Objects.retrieved found h' /\
      Objects.retrieved found h' = fst (similaritySearch (contents this h) query k).
Proof.
  intros Id this query k h [[stored Hv] [held Hd]] found h' again h'' E1 E2.
  assert (Hvl : Objects.vectors this < List.length h)
    by (apply nth_error_Some; congruence).
  assert (Hdl : Objects.documents this < List.length h)
    by (apply nth_error_Some; congruence).
  assert (Hc : contents this h =
               {| vectors := stored; documents := held;
                  extractor := Objects.extractor this |})
    by (unfold contents; now rewrite Hv, Hd).
  destruct (getEmbeddings (Objects.extractor this) query) as [qe|error] eqn:Hq.
  - destruct (ObjectFacts.similaritySearch_run Id this query k h qe stored held Hq Hv Hd)
      as (scored & top & R1).
    rewrite R1 in E1. injection E1 as <- <-.
    set (entries := rank_documents _ qe _) in *.
    set (h' := h ++ [Objects.OfScored scored; Objects.OfScored top;
                     Objects.OfRetrieved entries]) in *.
    assert (Hv' : nth_error h' (Objects.vectors this) = Some (Objects.OfVectors Id stored))
      by (unfold h'; rewrite ObjectFacts.allocated_kept; assumption).
    assert (Hd' : nth_error h' (Objects.documents this) = Some (Objects.OfDocuments held))
      by (unfold h'; rewrite ObjectFacts.allocated_kept; assumption).
    destruct (ObjectFacts.similaritySearch_run Id this query k h' qe stored held Hq Hv' Hd')
      as (scored' & top' & R2).
    rewrite R2 in E2. injection E2 as <- <-. fold entries.
    pose proof (ObjectFacts.retrieved_third Id h [] (Objects.OfScored scored)
                  (Objects.OfScored top) entries) as F1.
    rewrite app_nil_r in F1. fold h' in F1.
    pose proof (ObjectFacts.retrieved_third Id h' [] (Objects.OfScored scored')
                  (Objects.OfScored top') entries) as F2.
    rewrite app_nil_r in F2.
    pose proof (ObjectFacts.retrieved_third Id h
                  [Objects.OfScored scored'; Objects.OfScored top';
                   Objects.OfRetrieved entries]
                  (Objects.OfScored scored) (Objects.OfScored top) entries) as F3.
    fold h' in F3.
    split; [intros address Ha; unfold h'; now apply ObjectFacts.allocated_kept|].
    split; [unfold contents; now rewrite Hv', Hd', Hv, Hd|].
    split; [now rewrite F1, F2|]. split; [now rewrite F1, F3|].
    rewrite F1, Hc.
    rewrite (similaritySearch_normal Id
               {| vectors := stored; documents := held;
                  extractor := Objects.extractor this |} qe query k Hq).
    reflexivity.
  - unfold Objects.similaritySearch in E1. rewrite Hq in E1. injection E1 as <- <-.
    unfold Objects.similaritySearch in E2. rewrite Hq in E2. injection E2 as <- <-.
    split; [reflexivity|]. split; [reflexivity|].
    split; [reflexivity|]. split; [reflexivity|].
    unfold similaritySearch. rewrite Hc. cbn [extractor fst]. rewrite Hq. reflexivity.
Qed.

Lemma similaritySearch_repeatable_witness :
  well_formed Scene.store_object Scene.arrays /\
  Objects.retrieved
    (fst (Objects.similaritySearch Scene.store_object "kittens" None
            (snd (Objects.similaritySearch Scene.store_object "kittens" None
                    Scene.arrays))))
    (snd (Objects.similaritySearch Scene.store_object "kittens" None
            (snd (Objects.similaritySearch Scene.store_object "kittens" None
                    Scene.arrays))))
  = Objects.retrieved
      (fst (Objects.similaritySearch Scene.store_object "kittens" None Scene.arrays))
      (snd (Objects.similaritySearch Scene.store_object "kittens" None Scene.arrays)).
Proof.
  assert (W : well_formed Scene.store_object Scene.arrays).
  { split; eexists; reflexivity. }
  split; [exact W|].
  apply (similaritySearch_repeatable nat Scene.store_object "kittens" None Scene.arrays W
           _ _ _ _ (surjective_pairing _) (surjective_pairing _)).
Defined.

(** ** C9: symmetry of the similarity *)

(** C9, as the code has it.  On vectors of equal lengths
    [cosineSimilarity] gives the same number in both orders of its
    arguments, and the two results compare equal under [==] exactly when
    that number is not [NaN]. *)
Theorem cosineSimilarity_symmetric :
  forall a b : Vector,
    List.length a = List.length b ->
    cosineSimilarity a b = cosineSimilarity b a /\
    (cosineSimilarity a b =? cosineSimilarity b a)%float
      = negb (is_nan (cosineSimilarity a b)).
Proof.
  intros a b H.
  assert (E : cosineSimilarity a b = cosineSimilarity b a).
  { rewrite !cosineSimilarity_unfold.
    rewrite (dotProduct_comm a b H), (mul_comm (magnitude a) (magnitude b)).
    reflexivity. }
  split; [exact E|].
  rewrite <- E. destruct (is_nan (cosineSimilarity a b)) eqn:N; cbn [negb].
  - apply nan_unique in N. rewrite N. reflexivity.
  - rewrite (eqb_key _ _ N N). apply Z.eqb_refl.
Qed.

Lemma cosineSimilarity_symmetric_witness :
  List.length [1; 2]%float = List.length [3; 0.5]%float /\
  cosineSimilarity [1; 2]%float [3; 0.5]%float
  = cosineSimilarity [3; 0.5]%float [1; 2]%float /\
  (cosineSimilarity [1; 2] [3; 0.5] =? cosineSimilarity [3; 0.5] [1; 2])%float = true.
Proof.
  split; [reflexivity|].
  destruct (cosineSimilarity_symmetric [1; 2]%float [3; 0.5]%float eq_refl) as [E Q].
  split; [exact E | exact Q].
Defined.

(** C9 as stated fails under [==] when a vector has zero magnitude: both
    orders give [NaN], and [NaN] is not equal to itself. *)
Lemma cosineSimilarity_symmetry_nan :
  List.length [0; 0]%float = List.length [1; 0]%float /\
  cosineSimilarity [0; 0]%float [1; 0]%float = nan /\
  cosineSimilarity [1; 0]%float [0; 0]%float = nan /\
  (cosineSimilarity [0; 0] [1; 0] =? cosineSimilarity [1; 0] [0; 0])%float = false.
Proof. repeat split. Qed.

(** ** C10: the query pipeline asks for three documents *)

(** C10.  [searchDocuments] takes no [k]: it searches with [k = 3], and on
    a store of [n] vectors the sequence it hands on has [min(3, n)]
    entries. *)
Theorem searchDocuments_three :
  forall (Id : Type) (vectorStore : CustomVectorStore Id) (query : string)
         (queryEmbedding : Vector),
    getEmbeddings (extractor vectorStore) query = Normal queryEmbedding ->
    searchDocuments vectorStore query = similaritySearch vectorStore query (Some 3%Z) /\
    exists relevantDocs,
      fst (searchDocuments vectorStore query) = Normal relevantDocs /\
      List.length relevantDocs = Nat.min 3 (List.length (vectors vectorStore)) /\
      (List.length (vectors vectorStore) = List.length (documents vectorStore) ->
       List.length relevantDocs = Nat.min 3 (List.length (documents vectorStore))).
Proof.
  intros Id store query qe Hq. split; [reflexivity|].
  exists (rank_documents store qe 3).
  unfold searchDocuments.
  rewrite (similaritySearch_normal Id store qe query (Some 3%Z) Hq). cbn [fst].
  split; [reflexivity|].
  pose proof (rank_documents_length Id store qe 3) as Hlen.
  unfold relative_index in Hlen. cbn [Z.ltb Z.compare] in Hlen.
  split; [lia | intros <-; lia].
Qed.

Lemma searchDocuments_three_witness :
  getEmbeddings (extractor Sample.two_documents) "kittens" = Normal [1; 0]%float /\
  exists relevantDocs,
    fst (searchDocuments Sample.two_documents "kittens") = Normal relevantDocs /\
    List.length relevantDocs = 2.
Proof.
  split; [reflexivity|].
  destruct (searchDocuments_three nat Sample.two_documents "kittens" [1; 0]%float eq_refl)
    as (_ & docs & Hd & Hl & _).
  exists docs. split; [exact Hd | exact Hl].
Defined.

(** * The scenarios of the specification, evaluated *)

(** The index built from the two sample documents answers a question about
    kittens with the document about cats. *)
Example scenario_kittens :
  (vectorStore <- createVectorStore [Sample.cats; Sample.rockets] Sample.by_topic ;;
   fst (similaritySearch vectorStore "tell me about kittens" (Some 1%Z)))
  = Normal [Some Sample.cats].
Proof. vm_compute. reflexivity. Qed.

(** [k = 0] on a store that is not empty. *)
Example scenario_k_zero :
  fst (similaritySearch Sample.two_documents "kittens" (Some 0%Z)) = Normal [].
Proof. vm_compute. reflexivity. Qed.

(** Without [k], three documents are asked for. *)
Example scenario_default_k :
  similaritySearch Sample.two_documents "kittens" None
  = similaritySearch Sample.two_documents "kittens" (Some 3%Z).
Proof. reflexivity. Qed.

(** Two documents at the same similarity keep their insertion order, after
    the one that is closer to the query. *)
Example scenario_tie :
  fst (similaritySearch Sample.tied "kittens" None)
  = Normal [Some Sample.cats; Some (Sample.doc 3 "C" "kittens purr"); Some Sample.rockets].
Proof. vm_compute. reflexivity. Qed.

(** More vectors than documents: the positions without a document come
    back as [undefined]. *)
Example scenario_misaligned :
  let '(_, store) :=
    addVectors (setExtractor new_CustomVectorStore (Some Sample.along_x))
      [[0; 1]; [1; 0]; [1; 1]]%float [Sample.cats; Sample.rockets] in
  fst (similaritySearch store "kittens" None)
  = Normal [Some Sample.rockets; None; Some Sample.cats].
Proof. vm_compute. reflexivity. Qed.

(** A store whose extractor was never set cannot embed the query. *)
Example scenario_no_extractor :
  fst (similaritySearch (@new_CustomVectorStore nat) "kittens" None)
  = Throw (TypeError "extractor is not a function").
Proof. reflexivity. Qed.

(** A zero magnitude against an infinite one: the dot product is 1, the
    divisor is [0 * infinity], and the similarity is [NaN]. *)
Example scenario_zero_times_infinity :
  dotProduct [0x1p-600]%float [0x1p+600]%float = 1%float /\
  is_zero (magnitude [0x1p-600]%float) = true /\
  magnitude [0x1p+600]%float = infinity /\
  cosineSimilarity [0x1p-600]%float [0x1p+600]%float = nan.
Proof. repeat split. Qed.

(** A magnitude that underflows to zero under a dot product that does not:
    the similarity is infinite. *)
Example scenario_underflow :
  is_zero (magnitude [0x1p-600]%float) = true /\
  cosineSimilarity [0x1p-600]%float [0x1p+100]%float = infinity.
Proof. split; reflexivity. Qed.

(** * Further facts: ranking, pipelines, session *)

Module RankingFacts.

Lemma StronglySorted_app_cross {A} (R : A -> A -> Prop) l1 : forall l2,
  StronglySorted R (l1 ++ l2) ->
  forall x y, In x l1 -> In y l2 -> R x y.
Proof.
  induction l1 as [|z l1 IH]; intros l2 Hs x y Hx Hy; [destruct Hx|].
  cbn [app] in Hs. apply StronglySorted_inv in Hs as [Hs Hz].
  destruct Hx as [<-|Hx].
  - rewrite Forall_forall in Hz. apply Hz, in_or_app. now right.
  - eapply IH; eassumption.
Qed.

Lemma relative_index_nonneg len k :
  (0 <= k)%Z -> (0 <= len)%Z -> relative_index len k = Z.min k len.
Proof. intros Hk Hl. unfold relative_index. destruct (Z.ltb_spec k 0); lia. Qed.

Section Positions.
Variable Id : Type.
Variable this : CustomVectorStore Id.
Variable queryEmbedding : Vector.

Let n := List.length (vectors this).
Let kept (k : Z) : nat := Z.to_nat (relative_index (Z.of_nat n) k).

Lemma ranking_perm : Permutation (ranking this queryEmbedding) (seq 0 n).
Proof. apply sort_by_perm. Qed.

Lemma ranking_length : List.length (ranking this queryEmbedding) = n.
Proof. unfold ranking. rewrite sort_by_length. apply length_seq. Qed.

Lemma ranking_NoDup : NoDup (ranking this queryEmbedding).
Proof.
  apply (Permutation_NoDup (Permutation_sym ranking_perm)), seq_NoDup.
Qed.

Lemma ranking_in i : In i (ranking this queryEmbedding) <-> i < n.
Proof.
  split; intros H.
  - apply (Permutation_in _ ranking_perm), in_seq in H. lia.
  - apply (Permutation_in _ (Permutation_sym ranking_perm)), in_seq. lia.
Qed.

(** The documents returned are those of a prefix of the ranking. *)
Lemma rank_documents_ranking k :
  rank_documents this queryEmbedding k =
  List.map (nth_error (documents this)) (firstn (kept k) (ranking this queryEmbedding)).
Proof.
  rewrite rank_documents_unfold.
  rewrite (sort_by_map (scored_at this queryEmbedding) _ (must_follow this queryEmbedding))
    by reflexivity.
  rewrite firstn_map, map_map. reflexivity.
Qed.

(** Without [NaN], the ranking goes by decreasing key, earlier first. *)
Lemma ranking_sorted :
  (forall v, In v (vectors this) -> is_nan (cosineSimilarity queryEmbedding v) = false) ->
  StronglySorted (precedes (fun i => key (similarity_at this queryEmbedding i)))
    (ranking this queryEmbedding).
Proof.
  intros Hnan.
  pose proof (sort_by_map (fun i : nat => i) (must_follow this queryEmbedding)
                (fun y x => (key (similarity_at this queryEmbedding y)
                             <? key (similarity_at this queryEmbedding x))%Z)
                (seq 0 n)) as E.
  rewrite !map_id in E. unfold ranking. fold n.
  rewrite E; [apply sort_by_seq_sorted|].
  intros x y Hx Hy. apply in_seq in Hx, Hy.
  unfold must_follow, SortCompare, scored_at. cbn [similarity].
  apply comparator_after; apply Hnan, nth_In; fold n; lia.
Qed.

Lemma similarity_at_number i :
  (forall v, In v (vectors this) -> is_nan (cosineSimilarity queryEmbedding v) = false) ->
  i < n -> is_nan (similarity_at this queryEmbedding i) = false.
Proof. intros Hnan Hi. apply Hnan, nth_In. exact Hi. Qed.

End Positions.

End RankingFacts.

Import RankingFacts.

Module CosineFacts.
Local Open Scope float_scope.

Lemma mul_nan_l x : nan * x = nan.
Proof. rewrite mul_comm. apply mul_nan_r. Qed.

Lemma div_nan_r x : x / nan = nan.
Proof.
  apply Prim2SF_inj. rewrite div_spec, Prim2SF_nan. unfold SF64div.
  destruct (Prim2SF x); reflexivity.
Qed.

Lemma sqrt_nan : sqrt nan = nan.
Proof. reflexivity. Qed.

Lemma zero_over_zero_product m : 0 / (0 * m) = nan.
Proof.
  apply Prim2SF_inj. rewrite div_spec, mul_spec, Prim2SF_zero, Prim2SF_nan.
  unfold SF64div, SF64mul. destruct (Prim2SF m); reflexivity.
Qed.

Lemma squares_from_nan (a : Vector) : forall i,
  reduce_from (fun sum val (_ : nat) => sum + val * val) i nan a = nan.
Proof.
  induction a as [|x a IH]; intros i; cbn [reduce_from]; [reflexivity|].
  rewrite add_nan_l. apply IH.
Qed.

Lemma squares_with_nan (a : Vector) x :
  In x a -> is_nan x = true ->
  forall i acc, reduce_from (fun sum val (_ : nat) => sum + val * val) i acc a = nan.
Proof.
  intros Hin Hx. apply nan_unique in Hx. subst x.
  induction a as [|y a IH]; intros i acc; [destruct Hin|].
  cbn [reduce_from]. destruct Hin as [->|Hin].
  - rewrite mul_nan_l, add_nan_r. apply squares_from_nan.
  - apply IH, Hin.
Qed.

Lemma magnitude_with_nan (a : Vector) x :
  In x a -> is_nan x = true -> magnitude a = nan.
Proof.
  intros Hin Hx. unfold magnitude, reduce.
  rewrite (squares_with_nan a x Hin Hx). exact sqrt_nan.
Qed.

End CosineFacts.

Module PipelineFacts.

Lemma Promise_all_throws {A B} (f : A -> completion B) l e :
  Promise_all (List.map f l) = Throw e -> exists x, In x l /\ f x = Throw e.
Proof.
  induction l as [|x l IH]; cbn [List.map Promise_all]; [discriminate|].
  destruct (f x) as [v|e'] eqn:E; cbn [JS.bind].
  - destruct (Promise_all (List.map f l)) as [vs|e'']; cbn [JS.bind]; [discriminate|].
    intros H. injection H as ->.
    destruct (IH eq_refl) as (y & Hy & Hfy). exists y. split; [now right | exact Hfy].
  - intros H. injection H as ->. exists x. split; [now left | exact E].
Qed.

Lemma Promise_all_resolves {A B} (f : A -> completion B) l vs :
  Promise_all (List.map f l) = Normal vs ->
  Forall2 (fun x v => f x = Normal v) l vs.
Proof.
  revert vs. induction l as [|x l IH]; intros vs; cbn [List.map Promise_all].
  - intros H. injection H as <-. constructor.
  - destruct (f x) as [v|e] eqn:E; cbn [JS.bind]; [|discriminate].
    destruct (Promise_all (List.map f l)) as [vs'|e]; cbn [JS.bind]; [|discriminate].
    intros H. injection H as <-. constructor; [exact E | now apply IH].
Qed.

(** What a store that [createVectorStore] returned looks like. *)
Lemma createVectorStore_inv {Id} (docs : list (Document Id)) ex store :
  createVectorStore docs ex = Normal store ->
  documents store = docs /\
  extractor store = Some ex /\
  Forall2 (fun doc v => ex (pageContent doc) = Normal v) docs (vectors store).
Proof.
  unfold createVectorStore.
  destruct (Promise_all (List.map (fun doc => getEmbeddings (Some ex) (pageContent doc)) docs))
    as [vs|e] eqn:E; cbn [JS.bind]; [|discriminate].
  intros H. injection H as <-. cbn [documents extractor vectors].
  split; [reflexivity|]. split; [reflexivity|].
  exact (Promise_all_resolves _ _ _ E).
Qed.

End PipelineFacts.

Import CosineFacts PipelineFacts.

Module SessionFacts.

Lemma append_assoc (s t u : string) : ((s ++ t) ++ u = s ++ (t ++ u))%string.
Proof. induction s as [|c s IH]; cbn; [reflexivity | now rewrite IH]. Qed.

Lemma append_nil_r (s : string) : (s ++ "" = s)%string.
Proof. induction s as [|c s IH]; cbn; [reflexivity | now rewrite IH]. Qed.

Lemma occurs_in_refl t : occurs_in t t.
Proof. exists ""%string, ""%string. cbn. now rewrite append_nil_r. Qed.

Lemma occurs_in_left t s rest : occurs_in t s -> occurs_in t (s ++ rest).
Proof.
  intros (before & after & ->). exists before, (after ++ rest)%string.
  now rewrite !append_assoc.
Qed.

Lemma occurs_in_right t s skipped : occurs_in t s -> occurs_in t (skipped ++ s).
Proof.
  intros (before & after & ->). exists (skipped ++ before)%string, after.
  now rewrite !append_assoc.
Qed.

Lemma ends_with_refl t : ends_with t t.
Proof. exists ""%string. reflexivity. Qed.

Lemma ends_with_right t s skipped : ends_with t s -> ends_with t (skipped ++ s).
Proof.
  intros (before & ->). exists (skipped ++ before)%string. now rewrite append_assoc.
Qed.

(** A member of [arr] occurs in [arr.join(separator)]. *)
Lemma join_contains separator arr t :
  In t arr -> occurs_in t (join separator arr).
Proof.
  induction arr as [|x arr IH]; intros Hin; [destruct Hin|].
  destruct arr as [|y arr].
  - destruct Hin as [->|[]]. apply occurs_in_refl.
  - change (join separator (x :: y :: arr))
      with (x ++ separator ++ join separator (y :: arr))%string.
    destruct Hin as [->|Hin].
    + apply occurs_in_left, occurs_in_refl.
    + apply occurs_in_right, occurs_in_right, IH, Hin.
Qed.

Lemma same_title_eq t u : same_title t u = true <-> t = u.
Proof.
  destruct t as [t|], u as [u|]; cbn; try (split; [discriminate | congruence]).
  - rewrite String.eqb_eq. split; congruence.
  - split; reflexivity.
Qed.

Lemma has_In seen t : has seen t = true <-> In t seen.
Proof.
  unfold has. rewrite existsb_exists. split.
  - intros (u & Hu & E). apply same_title_eq in E. now subst.
  - intros H. exists t. split; [exact H | now apply same_title_eq].
Qed.

Section WithId.
Variable Id : Type.

Let text_of (doc : option (Document Id)) : completion string :=
  match doc with
  | Some doc => Normal (pageContent doc)
  | None => Throw (TypeError "Cannot read properties of undefined (reading 'pageContent')")
  end.

Lemma texts_of_defined (docs : list (Document Id)) :
  map_throwing text_of (List.map Some docs) = Normal (List.map pageContent docs).
Proof.
  induction docs as [|d docs IH]; cbn [List.map map_throwing]; [reflexivity|].
  cbn [text_of JS.bind]. rewrite IH. reflexivity.
Qed.

Lemma texts_of_undefined (entries : list (option (Document Id))) :
  In None entries ->
  map_throwing text_of entries =
  Throw (TypeError "Cannot read properties of undefined (reading 'pageContent')").
Proof.
  induction entries as [|[d|] entries IH]; intros Hin; [destruct Hin| |reflexivity].
  destruct Hin as [E|Hin]; [discriminate|].
  cbn [map_throwing text_of JS.bind]. now rewrite (IH Hin).
Qed.


(** The [forEach] over defined entries: each new title once. *)
Lemma listSources_defined (docs : list (Document Id)) : forall seen,
  exists titles,
    listSources (List.map Some docs) seen = (List.map source_line titles, Normal tt) /\
    NoDup titles /\
    forall t, In t titles <->
              In t (List.map (fun doc => title (metadata doc)) docs) /\ ~ In t seen.
Proof.
  induction docs as [|d docs IH]; intros seen; cbn [List.map listSources].
  - exists []. split; [reflexivity|]. split; [constructor|].
    intros t. cbn. tauto.
  - destruct (has seen (title (metadata d))) eqn:E; cbn [negb].
    + apply has_In in E.
      destruct (IH seen) as (ts & Hl & Hnd & Hin).
      exists ts. split; [exact Hl|]. split; [exact Hnd|].
      intros t. rewrite Hin. cbn [In]. split; [tauto|].
      intros [[<-|H1] H2]; [contradiction | tauto].
    + assert (Hnot : ~ In (title (metadata d)) seen).
      { intros H. apply has_In in H. congruence. }
      destruct (IH (title (metadata d) :: seen)) as (ts & Hl & Hnd & Hin).
      exists (title (metadata d) :: ts). rewrite Hl. split; [reflexivity|].
      split.
      * constructor; [|exact Hnd]. intros H. apply Hin in H as [_ H].
        apply H. now left.
      * intros t. cbn [In]. rewrite Hin. cbn [In]. split.
        -- intros [<-|[H1 H2]]; [tauto|]. split; [tauto|]. intros H3. apply H2. now right.
        -- intros [[<-|H1] H2]; [tauto|].
           destruct (same_title (title (metadata d)) t) eqn:Et.
           ++ apply same_title_eq in Et. tauto.
           ++ right. split; [exact H1|]. intros [H3|H3]; [|tauto].
              apply same_title_eq in H3. congruence.
Qed.


Lemma answerQuery_store (vectorStore : CustomVectorStore Id) client query :
  snd (answerQuery vectorStore client query) = vectorStore.
Proof.
  unfold answerQuery, searchDocuments, similaritySearch.
  destruct (getEmbeddings (extractor vectorStore) query) as [qe|e]; cbn [JS.bind];
    [|reflexivity].
  match goal with |- context [formatPrompt query ?r] =>
    destruct (formatPrompt query r) as [prompt|e] end; cbn [JS.bind]; [|reflexivity].
  destruct (getAnswer client prompt) as [answer|e]; cbn [JS.bind]; [|reflexivity].
  match goal with |- context [listSources ?r ?s] =>
    destruct (listSources r s) as [logged [u|e]] end; reflexivity.
Qed.

Lemma startChat_cons (vectorStore : CustomVectorStore Id) client query rest :
  lowercase_is query "exit" = false ->
  startChat vectorStore client (Answering query :: rest) =
  (question :: fst (answerQuery vectorStore client query) ++ separator
     :: fst (startChat vectorStore client rest),
   snd (startChat vectorStore client rest)).
Proof.
  intros H. cbn [startChat]. rewrite H.
  pose proof (answerQuery_store vectorStore client query) as Hs.
  destruct (answerQuery vectorStore client query) as [written store'].
  cbn [snd] in Hs. subst store'. cbn [fst].
  destruct (startChat vectorStore client rest) as [later ended]. reflexivity.
Qed.

End WithId.

End SessionFacts.

Import SessionFacts.

Module ProgramFacts.

Lemma lookups_defined {A} (l : list A) idx :
  Forall (fun i => i < List.length l) idx ->
  exists found, List.map (nth_error l) idx = List.map Some found /\ incl found l.
Proof.
  induction 1 as [|i idx Hi _ IH].
  - exists []. split; [reflexivity | intros x []].
  - destruct IH as (found & E & Hincl).
    destruct (nth_error l i) as [x|] eqn:Ex.
    + exists (x :: found). cbn [List.map]. rewrite Ex, E. split; [reflexivity|].
      intros y [<-|Hy]; [eapply nth_error_In; eassumption | now apply Hincl].
    + apply nth_error_None in Ex. lia.
Qed.

Section WithId.
Variable Id : Type.

(** On a store with a document for every vector, a search finds documents
    of the store only. *)
Lemma rank_documents_defined (this : CustomVectorStore Id) queryEmbedding k :
  List.length (vectors this) <= List.length (documents this) ->
  exists found,
    rank_documents this queryEmbedding k = List.map Some found /\
    incl found (documents this).
Proof.
  intros Hlen. rewrite rank_documents_ranking. apply lookups_defined.
  rewrite Forall_forall. intros i Hi.
  assert (i < List.length (vectors this)); [|lia].
  apply (ranking_in Id this queryEmbedding).
  rewrite <- (firstn_skipn
                (Z.to_nat (relative_index (Z.of_nat (List.length (vectors this))) k))
                (ranking this queryEmbedding)).
  apply in_or_app. now left.
Qed.

Lemma formatPrompt_defined query (docs : list (Document Id)) :
  exists prompt, formatPrompt query (List.map Some docs) = Normal prompt.
Proof.
  unfold formatPrompt. rewrite (texts_of_defined Id docs). cbn [JS.bind]. eauto.
Qed.

Lemma createVectorStore_resolves (docs : list (Document Id)) (ex : Extractor) :
  (forall doc, In doc docs -> exists v, ex (pageContent doc) = Normal v) ->
  exists store, createVectorStore docs ex = Normal store.
Proof.
  intros H.
  destruct (Promise_all_map (fun doc => getEmbeddings (Some ex) (pageContent doc)) docs H)
    as (vs & Hall & _).
  unfold createVectorStore. rewrite Hall. eexists. reflexivity.
Qed.

Lemma loadData_unfold (world : World Id) :
  loadData world None =
  match (fileContent <- readFile world "./data.json" ;; JSON_parse world fileContent) with
  | Normal rawData => ([], Normal rawData)
  | Throw error => ([load_failed error], Normal [])
  end.
Proof. reflexivity. Qed.

End WithId.

End ProgramFacts.

Import ProgramFacts.

(** * Further properties of the code *)

(** ** The search *)

(** X1.  Without [NaN] similarities, a search returns the best matches:
    no stored position that is left out has a similarity above that of a
    position that is returned. *)
Theorem similaritySearch_top_k :
  forall (Id : Type) (this : CustomVectorStore Id) (query : string) (k : option Z)
         (queryEmbedding : Vector),
    getEmbeddings (extractor this) query = Normal queryEmbedding ->
    (forall v, In v (vectors this) ->
       is_nan (cosineSimilarity queryEmbedding v) = false) ->
    exists idx : list nat,
      fst (similaritySearch this query k)
        = Normal (List.map (nth_error (documents this)) idx) /\
      forall i j,
        In i idx -> j < List.length (vectors this) -> ~ In j idx ->
        (similarity_at this queryEmbedding j <=? similarity_at this queryEmbedding i)%float
          = true.
Proof.
  intros Id this query k qe Hq Hnan.
  set (k' := match k with Some k => k | None => 3%Z end).
  set (m := Z.to_nat (relative_index (Z.of_nat (List.length (vectors this))) k')).
  exists (firstn m (ranking this qe)). split.
  - rewrite (similaritySearch_normal Id this qe query k Hq). cbn [fst].
    now rewrite rank_documents_ranking.
  - intros i j Hi Hj Hout.
    pose proof (ranking_sorted Id this qe Hnan) as Hs.
    rewrite <- (firstn_skipn m (ranking this qe)) in Hs.
    assert (Hj' : In j (skipn m (ranking this qe))).
    { apply (ranking_in Id this qe) in Hj.
      rewrite <- (firstn_skipn m (ranking this qe)) in Hj.
      apply in_app_or in Hj as [Hj|Hj]; [contradiction | exact Hj]. }
    destruct (StronglySorted_app_cross _ _ _ Hs i j Hi Hj') as [Hle _].
    assert (Hi' : i < List.length (vectors this)).
    { apply (ranking_in Id this qe).
      rewrite <- (firstn_skipn m (ranking this qe)). apply in_or_app. now left. }
    rewrite leb_key by (apply similarity_at_number; assumption).
    now apply Z.leb_le.
Qed.

Lemma similaritySearch_top_k_witness :
  getEmbeddings (extractor Sample.tied) "kittens" = Normal [1; 0]%float /\
  (forall v, In v (vectors Sample.tied) ->
     is_nan (cosineSimilarity [1; 0]%float v) = false) /\
  exists idx : list nat,
    fst (similaritySearch Sample.tied "kittens" (Some 2%Z))
      = Normal (List.map (nth_error (documents Sample.tied)) idx) /\
    forall i j,
      In i idx -> j < List.length (vectors Sample.tied) -> ~ In j idx ->
      (similarity_at Sample.tied [1; 0] j <=? similarity_at Sample.tied [1; 0] i)%float
        = true.
Proof.
  assert (Hnan : forall v, In v (vectors Sample.tied) ->
                   is_nan (cosineSimilarity [1; 0]%float v) = false).
  { intros v [<-|[<-|[<-|[]]]]; reflexivity. }
  split; [reflexivity|]. split; [exact Hnan|].
  exact (similaritySearch_top_k nat Sample.tied "kittens" (Some 2%Z) [1; 0]%float
           eq_refl Hnan).
Defined.

(** X2.  Asking for more documents only adds documents at the end: for
    [0 <= k <= k'], the result for [k] is the first [k] entries of the
    result for [k']. *)
Theorem similaritySearch_prefix :
  forall (Id : Type) (this : CustomVectorStore Id) (query : string) (k k' : Z)
         (queryEmbedding : Vector),
    getEmbeddings (extractor this) query = Normal queryEmbedding ->
    (0 <= k <= k')%Z ->
    exists result result',
      fst (similaritySearch this query (Some k)) = Normal result /\
      fst (similaritySearch this query (Some k')) = Normal result' /\
      result = firstn (Z.to_nat k) result'.
Proof.
  intros Id this query k k' qe Hq Hk.
  exists (rank_documents this qe k), (rank_documents this qe k').
  rewrite !(similaritySearch_normal Id this qe query _ Hq). cbn [fst].
  split; [reflexivity|]. split; [reflexivity|].
  rewrite !rank_documents_ranking, <- firstn_map, <- firstn_map, firstn_firstn.
  f_equal. rewrite !relative_index_nonneg by lia. lia.
Qed.

Lemma similaritySearch_prefix_witness :
  getEmbeddings (extractor Sample.tied) "kittens" = Normal [1; 0]%float /\
  (0 <= 1 <= 3)%Z /\
  exists result result',
    fst (similaritySearch Sample.tied "kittens" (Some 1%Z)) = Normal result /\
    fst (similaritySearch Sample.tied "kittens" (Some 3%Z)) = Normal result' /\
    result = firstn (Z.to_nat 1) result'.
Proof.
  split; [reflexivity|]. split; [lia|].
  apply (similaritySearch_prefix nat Sample.tied "kittens" 1 3 [1; 0]%float eq_refl).
  lia.
Defined.

(** X3.  Whatever the similarities, a search returns the documents found
    at distinct positions of the store, each below the number of vectors;
    when there are at least as many documents as vectors, no entry is
    [undefined] and every entry is a document of the store. *)
Theorem similaritySearch_positions :
  forall (Id : Type) (this : CustomVectorStore Id) (query : string) (k : option Z)
         (queryEmbedding : Vector),
    getEmbeddings (extractor this) query = Normal queryEmbedding ->
    exists idx : list nat,
      fst (similaritySearch this query k)
        = Normal (List.map (nth_error (documents this)) idx) /\
      NoDup idx /\
      Forall (fun i => i < List.length (vectors this)) idx /\
      (List.length (vectors this) <= List.length (documents this) ->
       forall entry, In entry (List.map (nth_error (documents this)) idx) ->
         exists doc, entry = Some doc /\ In doc (documents this)).
Proof.
  intros Id this query k qe Hq.
  set (k' := match k with Some k => k | None => 3%Z end).
  set (m := Z.to_nat (relative_index (Z.of_nat (List.length (vectors this))) k')).
  assert (Hin : forall i, In i (firstn m (ranking this qe)) ->
                  i < List.length (vectors this)).
  { intros i Hi. apply (ranking_in Id this qe).
    rewrite <- (firstn_skipn m (ranking this qe)). apply in_or_app. now left. }
  exists (firstn m (ranking this qe)). split; [|split; [|split]].
  - rewrite (similaritySearch_normal Id this qe query k Hq). cbn [fst].
    now rewrite rank_documents_ranking.
  - pose proof (ranking_NoDup Id this qe) as Hnd.
    rewrite <- (firstn_skipn m (ranking this qe)) in Hnd.
    now apply NoDup_app_remove_r in Hnd.
  - rewrite Forall_forall. exact Hin.
  - intros Hlen entry He. apply in_map_iff in He as (i & <- & Hi).
    apply Hin in Hi.
    destruct (nth_error (documents this) i) as [doc|] eqn:E.
    + exists doc. split; [reflexivity|]. eapply nth_error_In; eassumption.
    + apply nth_error_None in E. lia.
Qed.

Lemma similaritySearch_positions_witness :
  getEmbeddings (extractor Sample.with_zero_vector) "kittens" = Normal [1; 0]%float /\
  exists idx : list nat,
    fst (similaritySearch Sample.with_zero_vector "kittens" None)
      = Normal (List.map (nth_error (documents Sample.with_zero_vector)) idx) /\
    NoDup idx.
Proof.
  split; [reflexivity|].
  destruct (similaritySearch_positions nat Sample.with_zero_vector "kittens" None
              [1; 0]%float eq_refl) as (idx & Hr & Hnd & _).
  exists idx. split; assumption.
Defined.

(** X4.  Without [NaN] similarities, on a store that is not empty and for
    [k >= 1], the first document returned is the one stored at the earliest
    position of greatest similarity. *)
Theorem similaritySearch_best_first :
  forall (Id : Type) (this : CustomVectorStore Id) (query : string) (k : Z)
         (queryEmbedding : Vector),
    getEmbeddings (extractor this) query = Normal queryEmbedding ->
    (forall v, In v (vectors this) ->
       is_nan (cosineSimilarity queryEmbedding v) = false) ->
    vectors this <> [] ->
    (1 <= k)%Z ->
    exists (i : nat) (rest : list (option (Document Id))),
      fst (similaritySearch this query (Some k))
        = Normal (nth_error (documents this) i :: rest) /\
      i < List.length (vectors this) /\
      forall j, j < List.length (vectors this) ->
        (similarity_at this queryEmbedding j <=? similarity_at this queryEmbedding i)%float
          = true /\
        ((similarity_at this queryEmbedding j =? similarity_at this queryEmbedding i)%float
           = true -> i <= j).
Proof.
  intros Id this query k qe Hq Hnan Hne Hk.
  pose proof (ranking_sorted Id this qe Hnan) as Hs.
  pose proof (ranking_length Id this qe) as Hl.
  assert (Hpos : 0 < List.length (vectors this))
    by (destruct (vectors this); [contradiction | cbn; lia]).
  destruct (ranking this qe) as [|i tl] eqn:E; [cbn in Hl; lia|].
  assert (Hi : i < List.length (vectors this))
    by (apply (ranking_in Id this qe); rewrite E; now left).
  set (m := Z.to_nat (relative_index (Z.of_nat (List.length (vectors this))) k)).
  assert (Hm : m = S (pred m)).
  { unfold m. rewrite relative_index_nonneg by lia. lia. }
  exists i, (List.map (nth_error (documents this)) (firstn (pred m) tl)).
  split; [|split; [exact Hi|]].
  - rewrite (similaritySearch_normal Id this qe query (Some k) Hq). cbn [fst].
    rewrite rank_documents_ranking, E. fold m. rewrite Hm. reflexivity.
  - intros j Hj. apply StronglySorted_inv in Hs as [_ Hall].
    pose proof (similarity_at_number Id this qe i Hnan Hi) as Ni.
    pose proof (similarity_at_number Id this qe j Hnan Hj) as Nj.
    rewrite (leb_key _ _ Nj Ni), (eqb_key _ _ Nj Ni).
    apply (ranking_in Id this qe) in Hj. rewrite E in Hj.
    destruct Hj as [<-|Hj].
    + split; [apply Z.leb_refl | lia].
    + rewrite Forall_forall in Hall. destruct (Hall j Hj) as [Hle Htie].
      split; [now apply Z.leb_le|].
      intros Heq. apply Z.eqb_eq in Heq. symmetry in Heq.
      specialize (Htie Heq). lia.
Qed.

Lemma similaritySearch_best_first_witness :
  getEmbeddings (extractor Sample.tied) "kittens" = Normal [1; 0]%float /\
  (forall v, In v (vectors Sample.tied) ->
     is_nan (cosineSimilarity [1; 0]%float v) = false) /\
  vectors Sample.tied <> [] /\
  (1 <= 1)%Z /\
  exists (i : nat) (rest : list (option (Document nat))),
    fst (similaritySearch Sample.tied "kittens" (Some 1%Z))
      = Normal (nth_error (documents Sample.tied) i :: rest) /\
    i < List.length (vectors Sample.tied).
Proof.
  assert (Hnan : forall v, In v (vectors Sample.tied) ->
                   is_nan (cosineSimilarity [1; 0]%float v) = false).
  { intros v [<-|[<-|[<-|[]]]]; reflexivity. }
  split; [reflexivity|]. split; [exact Hnan|]. split; [discriminate|]. split; [lia|].
  destruct (similaritySearch_best_first nat Sample.tied "kittens" 1 [1; 0]%float
              eq_refl Hnan ltac:(discriminate) ltac:(lia)) as (i & rest & Hr & Hi & _).
  exists i, rest. split; assumption.
Defined.

(** ** The similarity *)

(** X5.  A [NaN] among the components of either vector makes the
    similarity [NaN]. *)
Theorem cosineSimilarity_nan_component :
  forall (a b : Vector) (x : number),
    In x a \/ In x b ->
    is_nan x = true ->
    cosineSimilarity a b = nan.
Proof.
  intros a b x Hin Hx. rewrite cosineSimilarity_unfold.
  destruct Hin as [Hin|Hin]; rewrite (magnitude_with_nan _ x Hin Hx).
  - rewrite mul_nan_l. apply div_nan_r.
  - rewrite mul_nan_r. apply div_nan_r.
Qed.

Lemma cosineSimilarity_nan_component_witness :
  (In nan [1; nan]%float \/ In nan [1; 0]%float) /\
  is_nan nan = true /\
  cosineSimilarity [1; nan]%float [1; 0]%float = nan.
Proof.
  split; [left; right; left; reflexivity|]. split; [reflexivity|].
  apply (cosineSimilarity_nan_component [1; nan]%float [1; 0]%float nan).
  - left; right; left; reflexivity.
  - reflexivity.
Defined.

(** X6.  The similarity of the empty vector with any vector, on either
    side, is [NaN]. *)
Theorem cosineSimilarity_empty :
  forall a : Vector,
    cosineSimilarity [] a = nan /\ cosineSimilarity a [] = nan.
Proof.
  intros a. split.
  - rewrite cosineSimilarity_unfold.
    change (dotProduct [] a) with 0%float. change (magnitude []) with 0%float.
    apply zero_over_zero_product.
  - destruct a as [|x a].
    + reflexivity.
    + rewrite cosineSimilarity_unfold. unfold dotProduct, reduce.
      rewrite dot_reduce_overrun by (cbn [List.length]; lia).
      apply div_nan_l.
Qed.

(** ** The indexing pipeline *)

(** X7.  [createVectorStore] fails exactly when the embedding of some
    document fails, and then with the exception of one of the documents;
    no store is returned. *)
Theorem createVectorStore_fails :
  forall (Id : Type) (docs : list (Document Id)) (extractor' : Extractor),
    (forall e, createVectorStore docs extractor' = Throw e ->
       exists doc, In doc docs /\ extractor' (pageContent doc) = Throw e) /\
    ((exists doc e, In doc docs /\ extractor' (pageContent doc) = Throw e) ->
     exists e, createVectorStore docs extractor' = Throw e).
Proof.
  intros Id docs ex. split.
  - intros e H. unfold createVectorStore in H.
    destruct (Promise_all (List.map (fun doc => getEmbeddings (Some ex) (pageContent doc)) docs))
      as [vs|e'] eqn:E; cbn [JS.bind] in H; [discriminate|].
    injection H as ->. apply Promise_all_throws in E. exact E.
  - intros (doc & e & Hin & He).
    destruct (createVectorStore docs ex) as [store|e'] eqn:E; [|eauto].
    apply createVectorStore_inv in E as (_ & _ & HF).
    exfalso. clear -HF Hin He.
    induction HF as [|d v ds vs Hd HF IH]; [destruct Hin|].
    destruct Hin as [->|Hin]; [congruence | auto].
Qed.

(** ** The answer assembler *)

(** X8.  On retrieved documents that are all defined, [formatPrompt]
    returns a prompt in which the text of every document occurs and which
    ends with the query and the cue for the answer. *)
Theorem formatPrompt_grounded :
  forall (Id : Type) (query : string) (docs : list (Document Id)),
    exists prompt,
      formatPrompt query (List.map Some docs) = Normal prompt /\
      (forall doc, In doc docs -> occurs_in (pageContent doc) prompt) /\
      ends_with ("Запит: " ++ query ++ LF ++ LF ++ "Відповідь:") prompt.
Proof.
  intros Id query docs. unfold formatPrompt.
  rewrite (texts_of_defined Id docs). cbn [JS.bind].
  eexists. split; [reflexivity|]. split.
  - intros doc Hin.
    do 5 apply occurs_in_right. apply occurs_in_left.
    apply join_contains. now apply in_map.
  - do 8 apply ends_with_right. apply ends_with_refl.
Qed.

(** X9.  When one of the retrieved entries is [undefined], [formatPrompt]
    throws a [TypeError]. *)
Theorem formatPrompt_undefined :
  forall (Id : Type) (query : string) (entries : list (option (Document Id))),
    In None entries ->
    exists message, formatPrompt query entries = Throw (TypeError message).
Proof.
  intros Id query entries Hin. unfold formatPrompt.
  rewrite (texts_of_undefined Id entries Hin). cbn [JS.bind]. eauto.
Qed.

Lemma formatPrompt_undefined_witness :
  In None [Some Sample.cats; None] /\
  exists message,
    formatPrompt "kittens" [Some Sample.cats; None] = Throw (TypeError message).
Proof.
  split; [right; left; reflexivity|].
  apply (formatPrompt_undefined nat "kittens" [Some Sample.cats; None]).
  right; left; reflexivity.
Defined.

(** ** The session *)

(** X10.  The list of sources names every title of the retrieved documents
    once, and nothing else. *)
Theorem listSources_once :
  forall (Id : Type) (docs : list (Document Id)),
    exists titles : list (option string),
      listSources (List.map Some docs) [] = (List.map source_line titles, Normal tt) /\
      NoDup titles /\
      forall t, In t titles <-> In t (List.map (fun doc => title (metadata doc)) docs).
Proof.
  intros Id docs.
  destruct (listSources_defined Id docs []) as (titles & Hl & Hnd & Hin).
  exists titles. split; [exact Hl|]. split; [exact Hnd|].
  intros t. rewrite Hin. cbn [In]. tauto.
Qed.


(** X13.  The session ends on the word [exit] in any mix of capitals and
    small letters, and on no other line. *)
Theorem exit_spellings :
  forall query : string,
    lowercase_is query "exit" = true <->
    exists a b c d : ascii,
      query = String a (String b (String c (String d EmptyString))) /\
      (a = "e" \/ a = "E")%char /\ (b = "x" \/ b = "X")%char /\
      (c = "i" \/ c = "I")%char /\ (d = "t" \/ d = "T")%char.
Proof.
  assert (He : forall c, lower_ascii c = "e"%char <-> (c = "e" \/ c = "E")%char).
  { intros c; split.
    - destruct c as [[] [] [] [] [] [] [] []]; vm_compute; intros H;
        try discriminate H; auto.
    - intros [->| ->]; reflexivity. }
  assert (Hx : forall c, lower_ascii c = "x"%char <-> (c = "x" \/ c = "X")%char).
  { intros c; split.
    - destruct c as [[] [] [] [] [] [] [] []]; vm_compute; intros H;
        try discriminate H; auto.
    - intros [->| ->]; reflexivity. }
  assert (Hi : forall c, lower_ascii c = "i"%char <-> (c = "i" \/ c = "I")%char).
  { intros c; split.
    - destruct c as [[] [] [] [] [] [] [] []]; vm_compute; intros H;
        try discriminate H; auto.
    - intros [->| ->]; reflexivity. }
  assert (Ht : forall c, lower_ascii c = "t"%char <-> (c = "t" \/ c = "T")%char).
  { intros c; split.
    - destruct c as [[] [] [] [] [] [] [] []]; vm_compute; intros H;
        try discriminate H; auto.
    - intros [->| ->]; reflexivity. }
  intros query. unfold lowercase_is. rewrite String.eqb_eq. split.
  - destruct query as [|a [|b [|c [|d [|x rest]]]]]; cbn [lower_string];
      intros H; try discriminate H.
    injection H as Ha Hb Hc Hd.
    exists a, b, c, d. rewrite <- He, <- Hx, <- Hi, <- Ht. auto.
  - intros (a & b & c & d & -> & Ha & Hb & Hc & Hd).
    apply He in Ha. apply Hx in Hb. apply Hi in Hc. apply Ht in Hd.
    cbn [lower_string]. now rewrite Ha, Hb, Hc, Hd.
Qed.

(** X14.  Once a line that answers a question is [exit], nothing that
    arrives after it is read, and the session ends normally.  A line that
    arrives while no question is pending changes nothing, whatever it
    says: an [exit] that no question hears does not end the session. *)
Theorem startChat_stops_at_exit :
  forall (Id : Type) (vectorStore : CustomVectorStore Id) (client : Client)
         (before : list arrival) (word : string) (after : list arrival),
    lowercase_is word "exit" = true ->
    startChat vectorStore client (before ++ Answering word :: after)
      = startChat vectorStore client (before ++ [Answering word]) /\
    snd (startChat vectorStore client (before ++ Answering word :: after))
      = Settled (Normal tt) /\
    startChat vectorStore client (before ++ Unheard word :: after)
      = startChat vectorStore client (before ++ after).
Proof.
  intros Id store client before word after Hw.
  revert store. induction before as [|[q|q] before IH]; intros store;
    cbn [app startChat].
  - rewrite Hw. repeat split; reflexivity.
  - destruct (lowercase_is q "exit"); [repeat split; reflexivity|].
    destruct (answerQuery store client q) as [written store'].
    destruct (IH store') as (E1 & E2 & E3). rewrite E1 in *. rewrite E3.
    destruct (startChat store' client (before ++ [Answering word])) as [later ended].
    cbn [snd] in E2. subst ended.
    destruct (startChat store' client (before ++ after)). repeat split; reflexivity.
  - apply IH.
Qed.

Lemma startChat_stops_at_exit_witness :
  lowercase_is "Exit" "exit" = true /\
  startChat Sample.two_documents Scene.oracle
    ([Answering "kittens"] ++ Answering "Exit" :: [Answering "never read"])
  = startChat Sample.two_documents Scene.oracle
      ([Answering "kittens"] ++ [Answering "Exit"]) /\
  startChat Sample.two_documents Scene.oracle
    ([Answering "kittens"] ++ Unheard "Exit" :: [Answering "rockets"])
  = startChat Sample.two_documents Scene.oracle
      ([Answering "kittens"] ++ [Answering "rockets"]).
Proof.
  split; [reflexivity|].
  pose proof (startChat_stops_at_exit nat Sample.two_documents Scene.oracle
                [Answering "kittens"] "Exit" [Answering "never read"] eq_refl)
    as (E1 & _ & _).
  pose proof (startChat_stops_at_exit nat Sample.two_documents Scene.oracle
                [Answering "kittens"] "Exit" [Answering "rockets"] eq_refl)
    as (_ & _ & E3).
  split; [exact E1 | exact E3].
Defined.

(** X15.  Every line that answers a question before [exit] gets its own
    turn, made against the same store whatever the earlier turns wrote: the
    question, what [answerQuery] writes for that line alone, and the
    separator.  A turn that fails does not end the session, and the lines
    that no question heard leave no trace. *)
Theorem startChat_turns :
  forall (Id : Type) (vectorStore : CustomVectorStore Id) (client : Client)
         (arrivals : list arrival),
    (forall query, In query (answers arrivals) -> lowercase_is query "exit" = false) ->
    let turns :=
      flat_map (fun query =>
        question :: fst (answerQuery vectorStore client query) ++ [separator])
        (answers arrivals) in
    startChat vectorStore client arrivals = (turns ++ [question], Pending) /\
    startChat vectorStore client (arrivals ++ [Answering "exit"])
      = (turns ++ [question], Settled (Normal tt)).
Proof.
  intros Id store client arrivals.
  induction arrivals as [|[q|q] arrivals IH]; intros H turns.
  - split; reflexivity.
  - assert (Hq : lowercase_is q "exit" = false) by (apply H; now left).
    destruct IH as [E1 E2]; [intros q' Hq'; apply H; now right|].
    cbn [app]. rewrite !startChat_cons by exact Hq. rewrite E1, E2. cbn [fst snd].
    unfold turns. change (answers (Answering q :: arrivals)) with (q :: answers arrivals).
    cbn [flat_map app]. rewrite <- !app_assoc. cbn [app].
    split; reflexivity.
  - cbn [app startChat]. apply IH. exact H.
Qed.

Lemma startChat_turns_witness :
  (forall query,
     In query (answers [Answering "kittens"; Unheard "exit"; Answering "rockets"]) ->
     lowercase_is query "exit" = false) /\
  snd (startChat Sample.two_documents Scene.down
         [Answering "kittens"; Unheard "exit"; Answering "rockets"]) = Pending /\
  List.length
    (fst (startChat Sample.two_documents Scene.down
            [Answering "kittens"; Unheard "exit"; Answering "rockets"])) = 7.
Proof.
  assert (H : forall query,
            In query (answers [Answering "kittens"; Unheard "exit"; Answering "rockets"]) ->
            lowercase_is query "exit" = false).
  { intros query [<-|[<-|[]]]; reflexivity. }
  split; [exact H|].
  destruct (startChat_turns nat Sample.two_documents Scene.down
              [Answering "kittens"; Unheard "exit"; Answering "rockets"] H) as [E _].
  rewrite E. split; reflexivity.
Defined.

(** ** Retrieval and answer together *)

(** X12.  On a store that [createVectorStore] built, a query that fails
    fails because the query could not be embedded or because the completion
    service failed; a query that succeeds lists at most three sources, each
    once, and each the title of a document of the index. *)
Theorem answerQuery_sources :
  forall (Id : Type) (docs : list (Document Id)) (extractor' : Extractor)
         (vectorStore : CustomVectorStore Id) (client : Client) (query : string),
    createVectorStore docs extractor' = Normal vectorStore ->
    (exists error,
       fst (answerQuery vectorStore client query) = [query_failed error] /\
       (extractor' query = Throw error \/
        exists prompt, getAnswer client prompt = Throw error)) \/
    (exists answer titles,
       fst (answerQuery vectorStore client query)
         = answer_line answer :: sources_heading :: List.map source_line titles /\
       NoDup titles /\
       List.length titles <= 3 /\
       forall t, In t titles -> exists doc, In doc docs /\ title (metadata doc) = t).
Proof.
  intros Id docs ex store client query Hstore.
  apply createVectorStore_inv in Hstore as (Hdocs & Hex & HF).
  apply Forall2_length in HF.
  unfold answerQuery, searchDocuments, similaritySearch. rewrite Hex.
  cbn [getEmbeddings].
  destruct (ex query) as [qe|e] eqn:Eq; cbn [JS.bind];
    [|left; exists e; split; [reflexivity | now left]].
  change (List.map (@document Id) _) with (rank_documents store qe 3).
  destruct (rank_documents_defined Id store qe 3) as (found & Efound & Hincl);
    [rewrite Hdocs; lia|].
  assert (Hthree : List.length found <= 3).
  { pose proof (rank_documents_length Id store qe 3) as Hl.
    rewrite Efound, length_map in Hl. unfold relative_index in Hl.
    cbn [Z.ltb Z.compare] in Hl. lia. }
  rewrite Efound.
  destruct (formatPrompt_defined Id query found) as [prompt ->]. cbn [JS.bind].
  destruct (getAnswer client prompt) as [answer|e] eqn:Ea; cbn [JS.bind];
    [|left; exists e; split; [reflexivity | right; eauto]].
  destruct (listSources_defined Id found []) as (titles & Hl & Hnd & Hin).
  rewrite Hl. right. exists answer, titles.
  split; [reflexivity|]. split; [exact Hnd|]. split.
  - apply Nat.le_trans with (2 := Hthree).
    rewrite <- (length_map (fun doc => title (metadata doc)) found).
    apply NoDup_incl_length; [exact Hnd|].
    intros t Ht. now apply Hin in Ht.
  - intros t Ht. apply Hin in Ht as [Ht _]. apply in_map_iff in Ht as (doc & <- & Hd).
    exists doc. split; [|reflexivity]. rewrite <- Hdocs. now apply Hincl.
Qed.

Lemma answerQuery_sources_witness :
  createVectorStore [Sample.cats; Sample.rockets] Sample.by_topic = Normal Scene.index /\
  ((exists error,
      fst (answerQuery Scene.index Scene.oracle "tell me about kittens")
        = [query_failed error] /\
      (Sample.by_topic "tell me about kittens"%string = Throw error \/
       exists prompt, getAnswer Scene.oracle prompt = Throw error)) \/
   (exists answer titles,
      fst (answerQuery Scene.index Scene.oracle "tell me about kittens")
        = answer_line answer :: sources_heading :: List.map source_line titles /\
      NoDup titles /\
      List.length titles <= 3 /\
      forall t, In t titles ->
        exists doc, In doc [Sample.cats; Sample.rockets] /\ title (metadata doc) = t)).
Proof.
  split; [reflexivity|].
  exact (answerQuery_sources nat [Sample.cats; Sample.rockets] Sample.by_topic
           Scene.index Scene.oracle "tell me about kittens" eq_refl).
Defined.

(** ** The program *)

(** X16.  When the corpus file cannot be read or parsed, or holds no
    record, [runRAG] writes the failure, if any, and the no-data message,
    and returns: no model is loaded and no question is asked. *)
Theorem runRAG_no_data :
  forall (Id : Type) (world : World Id),
    (forall error,
       (fileContent <- readFile world "./data.json" ;; JSON_parse world fileContent)
         = Throw error ->
       runRAG world = ([load_failed error; no_data], Settled (Normal tt))) /\
    ((fileContent <- readFile world "./data.json" ;; JSON_parse world fileContent)
       = Normal [] ->
     runRAG world = ([no_data], Settled (Normal tt))).
Proof.
  intros Id world. split; [intros error H | intros H];
    unfold runRAG; rewrite loadData_unfold, H; reflexivity.
Qed.

(** X17.  With a corpus, a failure to make the client, to load the model
    or to embed a document makes [runRAG] fail before the store is ready:
    without a client nothing is written, and in no case does the session
    start. *)
Theorem runRAG_index_failure :
  forall (Id : Type) (world : World Id) (rawData : list (RawItem Id)),
    (fileContent <- readFile world "./data.json" ;; JSON_parse world fileContent)
      = Normal rawData ->
    rawData <> [] ->
    (forall error, openai world = Throw error ->
       runRAG world = ([], Settled (Throw error))) /\
    (forall client error,
       openai world = Normal client ->
       pipeline world = Throw error ->
       runRAG world = ([loading_model], Settled (Throw error))) /\
    (forall client extractor',
       openai world = Normal client ->
       pipeline world = Normal extractor' ->
       (exists doc error,
          In doc (formatDocuments rawData) /\
          extractor' (pageContent doc) = Throw error) ->
       exists error,
         runRAG world = ([loading_model; creating_store], Settled (Throw error))).
Proof.
  intros Id world rawData Hload Hne.
  assert (Hlen : (List.length rawData =? 0) = false)
    by (destruct rawData; [contradiction | reflexivity]).
  split; [|split].
  - intros error Hc. unfold runRAG. rewrite loadData_unfold, Hload, Hlen.
    unfold initializeOpenRouter. rewrite Hc. reflexivity.
  - intros client error Hc Hp. unfold runRAG. rewrite loadData_unfold, Hload, Hlen.
    unfold initializeOpenRouter, initializeEmbeddings. rewrite Hc, Hp. reflexivity.
  - intros client ex Hc Hp (doc & e & Hin & He).
    destruct (createVectorStore (formatDocuments rawData) ex) as [store|error] eqn:E.
    + apply createVectorStore_inv in E as (_ & _ & HF). exfalso.
      clear -HF Hin He.
      induction HF as [|d v ds vs Hd HF IH]; [destruct Hin|].
      destruct Hin as [->|Hin]; [congruence | auto].
    + exists error. unfold runRAG. rewrite loadData_unfold, Hload, Hlen.
      unfold initializeOpenRouter, initializeEmbeddings. rewrite Hc, Hp, E. reflexivity.
Qed.

Lemma runRAG_index_failure_witness :
  (fileContent <- readFile Scene.no_model "./data.json" ;;
   JSON_parse Scene.no_model fileContent) = Normal Scene.corpus /\
  Scene.corpus <> [] /\
  exists error,
    runRAG Scene.no_model = ([loading_model; creating_store], Settled (Throw error)).
Proof.
  split; [reflexivity|]. split; [discriminate|].
  apply (proj2 (proj2 (runRAG_index_failure nat Scene.no_model Scene.corpus eq_refl
                         ltac:(discriminate))) Scene.oracle Scene.offline eq_refl eq_refl).
  eexists _, _. split; [left; reflexivity | reflexivity].
Defined.

(** X18.  With a corpus, a client, a model and embeddings for every
    document, [runRAG] builds the store over the formatted corpus, one
    vector for each record, announces it, and runs the session on that
    store, with that client, on what arrives at the terminal. *)
Theorem runRAG_session :
  forall (Id : Type) (world : World Id) (rawData : list (RawItem Id))
         (client : Client) (extractor' : Extractor),
    (fileContent <- readFile world "./data.json" ;; JSON_parse world fileContent)
      = Normal rawData ->
    rawData <> [] ->
    openai world = Normal client ->
    pipeline world = Normal extractor' ->
    (forall doc, In doc (formatDocuments rawData) ->
       exists v, extractor' (pageContent doc) = Normal v) ->
    exists vectorStore,
      createVectorStore (formatDocuments rawData) extractor' = Normal vectorStore /\
      documents vectorStore = formatDocuments rawData /\
      List.length (vectors vectorStore) = List.length rawData /\
      runRAG world =
        (loading_model :: creating_store :: ready
           :: fst (startChat vectorStore client (stdin world)),
         snd (startChat vectorStore client (stdin world))).
Proof.
  intros Id world rawData client ex Hload Hne Hc Hp Hall.
  assert (Hlen : (List.length rawData =? 0) = false)
    by (destruct rawData; [contradiction | reflexivity]).
  destruct (createVectorStore_resolves Id _ ex Hall) as [store E].
  exists store. split; [exact E|].
  pose proof (createVectorStore_inv _ _ _ E) as (Hdocs & _ & HF).
  split; [exact Hdocs|]. split.
  - apply Forall2_length in HF. rewrite <- HF.
    unfold formatDocuments. apply length_map.
  - unfold runRAG. rewrite loadData_unfold, Hload, Hlen.
    unfold initializeEmbeddings, initializeOpenRouter. rewrite Hc, Hp, E.
    destruct (startChat store client (stdin world)) as [written ended].
    reflexivity.
Qed.

Lemma runRAG_session_witness :
  (fileContent <- readFile Scene.working "./data.json" ;;
   JSON_parse Scene.working fileContent) = Normal Scene.corpus /\
  Scene.corpus <> [] /\
  openai Scene.working = Normal Scene.oracle /\
  pipeline Scene.working = Normal Sample.by_topic /\
  (forall doc, In doc (formatDocuments Scene.corpus) ->
     exists v, Sample.by_topic (pageContent doc) = Normal v) /\
  exists vectorStore,
    createVectorStore (formatDocuments Scene.corpus) Sample.by_topic = Normal vectorStore /\
    List.length (vectors vectorStore) = List.length Scene.corpus.
Proof.
  assert (H : forall doc, In doc (formatDocuments Scene.corpus) ->
                exists v, Sample.by_topic (pageContent doc) = Normal v).
  { intros doc [<-|[<-|[]]]; eexists; reflexivity. }
  split; [reflexivity|]. split; [discriminate|]. split; [reflexivity|].
  split; [reflexivity|]. split; [exact H|].
  destruct (runRAG_session nat Scene.working Scene.corpus Scene.oracle Sample.by_topic
              eq_refl ltac:(discriminate) eq_refl eq_refl H)
    as (store & E & _ & Hl & _).
  exists store. split; assumption.
Defined.

(** A whole run on a machine where everything answers: the index is built,
    one question is answered with its two sources, the [exit] typed during
    that turn is lost, and [Exit] ends the session before the last line is
    read. *)
Example scenario_run :
  runRAG Scene.working
  = ([loading_model; creating_store; ready;
      question;
      answer_line (Some "Cats are mammals."%string); sources_heading;
      source_line (Some "A"%string); source_line (Some "B"%string);
      separator;
      question],
     Settled (Normal tt)).
Proof. vm_compute. reflexivity. Qed.

(** A run without a key for the completion service: it fails before
    anything is written. *)
Example scenario_no_key :
  exists error, runRAG Scene.no_key = ([], Settled (Throw error)).
Proof. eexists. reflexivity. Qed.

(** A run that cannot read its corpus. *)
Example scenario_no_file :
  runRAG Scene.no_file
  = ([load_failed (Rejected "ENOENT"); no_data], Settled (Normal tt)).
Proof. reflexivity. Qed.

(** A turn whose completion service is down, on the sample index. *)
Example scenario_service_down :
  answerQuery Scene.index Scene.down "tell me about kittens"
  = ([query_failed (Rejected "503")], Scene.index).
Proof. vm_compute. reflexivity. Qed.
